(** * VierGewinnt: board model, win detection and lookahead evaluation

    A shallow embedding of [viergewinnt.py].  Boards are the 6x7 numpy
    arrays created by [np.zeros((6, 7))]; a cell holds [EMPTY] (0), the
    value of player 1 (+1) or the value of player 2 (-1).  Row 0 is the
    top row of the printed board, row 5 the bottom row.  Cell values are
    small integers stored as floats, on which sums and comparisons are
    exact, so they are embedded as [Z].  Values of positions (estimates
    and rewards) are embedded as rationals. *)

From Stdlib Require Import ZArith QArith Qminmax Lia Sorted.
From Stdlib Require Import String Ascii DecimalString.
From stdpp Require Import base option list strings gmap.

Local Open Scope Z_scope.
Local Open Scope list_scope.

(** ** Exceptions and the error monad *)

Inductive exn : Type :=
  | FullBoardException
  | FullColumnException
  | IndexError
  | KeyError
  | ValueError.

Inductive result (A : Type) : Type :=
  | Ok (a : A)
  | Raise (e : exn).
Arguments Ok {A} a.
Arguments Raise {A} e.

Definition rbind {A B : Type} (m : result A) (f : A -> result B) : result B :=
  match m with
  | Ok a => f a
  | Raise e => Raise e
  end.

Notation "x <-? m ; k" := (rbind m (fun x => k))
  (at level 100, m at next level, right associativity).

(** [[f(x) for x in xs]] where [f] may raise: the first exception wins. *)
Fixpoint map_r {A B : Type} (f : A -> result B) (xs : list A) : result (list B) :=
  match xs with
  | [] => Ok []
  | x :: xs' => y <-? f x; ys <-? map_r f xs'; Ok (y :: ys)
  end.

(** [[y for x in xs for y in f(x)]] where [f] may raise. *)
Fixpoint flat_map_r {A B : Type} (f : A -> result (list B)) (xs : list A)
  : result (list B) :=
  match xs with
  | [] => Ok []
  | x :: xs' => ys <-? f x; zs <-? flat_map_r f xs'; Ok (ys ++ zs)
  end.

(** ** Boards *)

Definition EMPTY : Z := 0.
Definition NO_MOVE : Z := -999.

Abbreviation state := (list (list Z)).

Definition n_rows : nat := 6.
Definition n_cols : nat := 7.

(** [np.zeros((6, 7))] *)
Definition zeros : state := replicate n_rows (replicate n_cols 0).

(** The shape every board of the program has. *)
Definition wf_state (s : state) : Prop :=
  length s = n_rows /\ Forall (fun r => length r = n_cols) s.

(** [state[i, j]], read as 0 outside the array (used only inside it). *)
Definition cell (s : list (list Z)) (i j : nat) : Z :=
  match s !! i with
  | Some r => default 0 (r !! j)
  | None => 0
  end.

(** [state[:, j]] for an index [j] already normalised. *)
Definition column (s : state) (j : nat) : list Z :=
  map (fun r => default 0 (r !! j)) s.

(** [np.sum(v == EMPTY)] *)
Definition count_empty (v : list Z) : nat :=
  length (filter (fun x => x = EMPTY) v).

(** numpy's index normalisation along the column axis: negative indices
    count from the end, anything outside [-7, 7) raises. *)
Definition col_index (c : Z) : result nat :=
  if (0 <=? c) && (c <? Z.of_nat n_cols) then Ok (Z.to_nat c)
  else if (- Z.of_nat n_cols <=? c) && (c <? 0) then Ok (Z.to_nat (c + Z.of_nat n_cols))
  else Raise IndexError.

(** [new_state[i, j] = v] on a copy. *)
Definition set_cell (s : state) (i j : nat) (v : Z) : state :=
  match s !! i with
  | Some r => <[i := <[j := v]> r]> s
  | None => s
  end.

(** ** The game object *)

(** What [check_winner] returns besides [None]: [False] for a draw, or
    the name of a player. *)
Inductive outcome : Type :=
  | Draw
  | Winner (name : string).

(** The fields of a [VierGewinnt] instance the modelled methods read. *)
Record game : Type := Game {
  player1 : string;
  player2 : string;
  live : state
}.

(** [self.name2val]: filled by two successive assignments, so the entry
    for player 2 overwrites the one for player 1 when the names agree. *)
Definition name2val (g : game) : gmap string Z :=
  <[player2 g := -1]> (<[player1 g := 1]> ∅).

Definition get_opponent_name (g : game) (player_name : string) : string :=
  if String.eqb player_name (player1 g) then player2 g else player1 g.

(** [if state is None: state = self.state] *)
Definition resolve (g : game) (st : option state) : state :=
  match st with
  | Some s => s
  | None => live g
  end.

(** ** Win detection *)

Definition winner_positions : list (list (list Z)) :=
  [ [[1]; [1]; [1]; [1]];
    [[1; 1; 1; 1]];
    [[1; 0; 0; 0];
     [0; 1; 0; 0];
     [0; 0; 1; 0];
     [0; 0; 0; 1]];
    [[0; 0; 0; 1];
     [0; 0; 1; 0];
     [0; 1; 0; 0];
     [1; 0; 0; 0]] ].

Definition height (k : list (list Z)) : nat := length k.
Definition width (k : list (list Z)) : nat := length (hd [] k).

Definition zsum (l : list Z) : Z := fold_right Z.add 0 l.

(** One entry of [convolve2d(state, k, mode='valid')]: the kernel is
    flipped along both axes, as a convolution does. *)
Definition conv_at (s k : list (list Z)) (i j : nat) : Z :=
  zsum (map (fun a =>
    zsum (map (fun b =>
      cell s (i + a) (j + b) * cell k (height k - 1 - a) (width k - 1 - b))
      (seq 0 (width k))))
    (seq 0 (height k))).

Definition convolve2d (s k : list (list Z)) : list (list Z) :=
  map (fun i => map (fun j => conv_at s k i j)
                    (seq 0 (width s - width k + 1)))
      (seq 0 (height s - height k + 1)).

(** [(m == v).any()] *)
Definition any_eq (v : Z) (m : list (list Z)) : bool :=
  existsb (existsb (Z.eqb v)) m.

(** [(state != EMPTY).all()] *)
Definition all_occupied (s : state) : bool :=
  forallb (forallb (fun v => negb (v =? EMPTY))) s.

(** The [for win_pos in winner_positions] loop with its three [break]s. *)
Fixpoint check_patterns (g : game) (s : state) (ks : list (list (list Z)))
  : option outcome :=
  match ks with
  | [] => None
  | win_pos :: ks' =>
      let convolved_state := convolve2d s win_pos in
      if any_eq 4 convolved_state then Some (Winner (player1 g))
      else if any_eq (-4) convolved_state then Some (Winner (player2 g))
      else if all_occupied s then Some Draw
      else check_patterns g s ks'
  end.

Definition check_winner (g : game) (st : option state) : option outcome :=
  check_patterns g (resolve g st) winner_positions.

(** ** Moves *)

(** [np.arange(n)] *)
Definition arange (n : nat) : list Z := seqZ 0 (Z.of_nat n).

(** [np.arange(7)[np.sum(state == EMPTY, axis=0) > 0]], or [[NO_MOVE]]. *)
Definition get_available_moves (g : game) (st : option state) : list Z :=
  let s := resolve g st in
  match check_winner g (Some s) with
  | None =>
      filter (fun c => (0 < count_empty (column s (Z.to_nat c)))%nat)
             (arange n_cols)
  | Some _ => [NO_MOVE]
  end.

Definition insert_piece (g : game) (player_name : string) (col : Z)
    (st : option state) : result state :=
  let s := resolve g st in
  if col =? NO_MOVE then Ok s
  else
    j <-? col_index col;
    if (count_empty (column s j) =? 0)%nat then Raise FullColumnException
    else
      let row := (count_empty (column s j) - 1)%nat in
      match name2val g !! player_name with
      | Some v => Ok (set_cell s row j v)
      | None => Raise KeyError
      end.

(** ** The array store

    numpy arrays are objects: [insert_piece] receives a reference, may
    return that very reference, or allocates a copy and writes to it.
    The store maps locations to arrays; a computation threads the store
    and may raise. *)

Abbreviation store := (gmap nat state).

Definition M (A : Type) : Type := store -> store * result A.

Definition ret {A : Type} (a : A) : M A := fun h => (h, Ok a).
Definition throw {A : Type} (e : exn) : M A := fun h => (h, Raise e).
Definition mbind {A B : Type} (m : M A) (f : A -> M B) : M B :=
  fun h => match m h with
           | (h', Ok a) => f a h'
           | (h', Raise e) => (h', Raise e)
           end.
Definition lift {A : Type} (r : result A) : M A := fun h => (h, r).

Notation "x <-! m ; k" := (mbind m (fun x => k))
  (at level 100, m at next level, right associativity).

Definition read (l : nat) : M state :=
  fun h => match h !! l with
           | Some s => (h, Ok s)
           | None => (h, Raise KeyError)
           end.

(** [deepcopy(state)]: a new object with the same contents. *)
Definition deepcopy (l : nat) : M nat :=
  fun h => match h !! l with
           | Some s => let l' := fresh (dom h) in (<[l' := s]> h, Ok l')
           | None => (h, Raise KeyError)
           end.

(** [arr[i, j] = v], in place. *)
Definition write (l : nat) (i j : nat) (v : Z) : M unit :=
  fun h => match h !! l with
           | Some s => (<[l := set_cell s i j v]> h, Ok tt)
           | None => (h, Raise KeyError)
           end.

(** [insert_piece] on references, statement by statement. *)
Definition insert_piece_obj (g : game) (player_name : string) (col : Z)
    (st : nat) : M nat :=
  s <-! read st;
  if col =? NO_MOVE then ret st
  else
    j <-! lift (col_index col);
    if (count_empty (column s j) =? 0)%nat then throw FullColumnException
    else
      let row := (count_empty (column s j) - 1)%nat in
      new_state <-! deepcopy st;
      match name2val g !! player_name with
      | Some v => _ <-! write new_state row j v; ret new_state
      | None => throw KeyError
      end.

(** ** The agent *)

Record agent : Type := Agent {
  name : string;
  exp_factor : Q;
  iteration : Z;
  value_model : state -> Q
}.

(** [self.value_model.predict(...)]: one scalar per state of the batch. *)
Definition calc_state_values (a : agent) (states : list state) : list Q :=
  map (value_model a) states.

(** The chain of tests of [calc_reward]; [None] and [False] are never
    equal to a name, so the first test succeeds on the own name only. *)
Definition calc_reward (a : agent) (winner : option outcome) : Q :=
  match winner with
  | Some (Winner w) => if String.eqb w (name a) then 1 else -1
  | None => 0
  | Some Draw => 1 # 2
  end.

(** [f'{move}'] for an integer. *)
Definition fmt (move : Z) : string := NilZero.string_of_int (Z.to_int move).

(** A row of [moves_and_temp_states]: the tag of the parent, the tag of
    the node, the board of the node. *)
Definition node : Type := string * string * state.

Definition prev_of (r : node) : string := r.1.1.
Definition tag_of (r : node) : string := r.1.2.
Definition state_of (r : node) : state := r.2.

(** The first comprehension of [calc_move_values]. *)
Definition first_moves (g : game) (a : agent) (s : state) (moves : list Z)
  : result (list node) :=
  map_r (fun move =>
           s' <-? insert_piece g (name a) move (Some s);
           Ok (""%string, fmt move, s'))
        moves.

(** The comprehension that plays one more ply of [who] from every node.
    Slicing an empty array along a second axis raises. *)
Definition expand (g : game) (who : string) (rows : list node)
  : result (list node) :=
  match rows with
  | [] => Raise IndexError
  | _ =>
    flat_map_r (fun r =>
      let prev_move := tag_of r in
      let temp_state := state_of r in
      map_r (fun move =>
               s' <-? insert_piece g who move (Some temp_state);
               Ok (prev_move,
                   String.append prev_move
                     (if move =? NO_MOVE then ""%string else fmt move),
                   s'))
            (get_available_moves g (Some temp_state)))
      rows
  end.

(** The body of [for i in range(self.iteration-1)], run [n] times. *)
Fixpoint expand_rounds (g : game) (a : agent) (n : nat)
    (rows : list node) (self_move_idx opp_move_idx : list (list string))
  : result (list node * list (list string) * list (list string)) :=
  match n with
  | O => Ok (rows, self_move_idx, opp_move_idx)
  | S n' =>
      rows1 <-? expand g (name a) rows;
      let self_move_idx := self_move_idx ++ [map prev_of rows1] in
      rows2 <-? expand g (get_opponent_name g (name a)) rows1;
      let opp_move_idx := opp_move_idx ++ [map prev_of rows2] in
      expand_rounds g a n' rows2 self_move_idx opp_move_idx
  end.

(** The leaf scoring of [calc_move_values]. *)
Definition score_leaves (g : game) (a : agent) (final_states : list state)
  : list Q :=
  let state_values := calc_state_values a final_states in
  let winners := map (fun temp_state => check_winner g (Some temp_state))
                     final_states in
  map (fun vw : Q * option outcome =>
         match vw.2 with
         | None => vw.1
         | Some w => calc_reward a (Some w)
         end)
      (zip state_values winners).

(** Modelled from the spec: [groupby_np] of the module [numpy_groupby],
    which the program imports and which is not among its sources.  The
    values are grouped by key and every group is reduced with [uf]; there
    is one result per distinct key, in the order in which the keys first
    occur, so that the values of the first moves come back in the order
    of the moves. *)
Fixpoint group_update (uf : Q -> Q -> Q) (k : string) (v : Q)
    (acc : list (string * Q)) : list (string * Q) :=
  match acc with
  | [] => [(k, v)]
  | (k', v') :: acc' =>
      if String.eqb k k' then (k', uf v' v) :: acc'
      else (k', v') :: group_update uf k v acc'
  end.

Definition group_all (uf : Q -> Q -> Q) (kvs : list (string * Q))
    (acc : list (string * Q)) : list (string * Q) :=
  fold_left (fun acc kv => group_update uf kv.1 kv.2 acc) kvs acc.

Definition groupby_np (values : list Q) (keys : list string)
    (uf : Q -> Q -> Q) : result (list Q) :=
  if (length values =? length keys)%nat
  then Ok (map snd (group_all uf (zip keys values) []))
  else Raise ValueError.

Definition index {A : Type} (l : list A) (i : nat) : result A :=
  match l !! i with
  | Some x => Ok x
  | None => Raise IndexError
  end.

(** [l[-1]] *)
Definition index_last {A : Type} (l : list A) : result A :=
  match last l with
  | Some x => Ok x
  | None => Raise IndexError
  end.

(** The body of [for i in range(self.iteration-2, -1, -1)], over the
    indices that range produces. *)
Fixpoint reduce_rounds (idxs : list nat)
    (self_move_idx opp_move_idx : list (list string)) (state_values : list Q)
  : result (list Q) :=
  match idxs with
  | [] => Ok state_values
  | i :: idxs' =>
      ks <-? index self_move_idx i;
      state_values <-? groupby_np state_values ks Qmax;
      ko <-? index opp_move_idx i;
      state_values <-? groupby_np state_values ko Qmin;
      reduce_rounds idxs' self_move_idx opp_move_idx state_values
  end.

(** [range(n-1, -1, -1)] *)
Definition range_down (n : nat) : list nat := rev (seq 0 n).

Definition calc_move_values (g : game) (a : agent) (s : state)
    (moves : list Z) : result (list Q) :=
  let opp_name := get_opponent_name g (name a) in
  rows0 <-? first_moves g a s moves;
  rows1 <-? expand g opp_name rows0;
  let opp_move_idx := [map prev_of rows1] in
  lv <-? expand_rounds g a (Z.to_nat (iteration a - 1)) rows1 [] opp_move_idx;
  let '(rows, self_move_idx, opp_move_idx) := lv in
  let final_states := map state_of rows in
  let state_values := score_leaves g a final_states in
  ko <-? index_last opp_move_idx;
  state_values <-? groupby_np state_values ko Qmin;
  reduce_rounds (range_down (Z.to_nat (iteration a - 1)))
                self_move_idx opp_move_idx state_values.

(** ** Choosing a move *)

(** [random.choice(l)], the draw being the outcome [pick] of the
    generator. *)
Definition choice {A : Type} (pick : nat) (l : list A) : result A :=
  match l with
  | [] => Raise IndexError
  | _ => index l (pick mod length l)
  end.

(** [np.max(v)] *)
Definition np_max (v : list Q) : result Q :=
  match v with
  | [] => Raise ValueError
  | x :: r => Ok (fold_left Qmax r x)
  end.

(** [arr[mask]] for a boolean mask, which must have the length of [arr]. *)
Definition mask_select {A : Type} (arr : list A) (mask : list bool)
  : result (list A) :=
  if (length arr =? length mask)%nat
  then Ok (map fst (filter (fun xb : A * bool => xb.2 = true) (zip arr mask)))
  else Raise IndexError.

(** [DeepAgent.find_move]; [u] is the outcome of [random.random()] and
    [pick] the one of [random.choice]. *)
Definition find_move (g : game) (a : agent) (s : state) (learn : bool)
    (u : Q) (pick : nat) : result Z :=
  let exp_factor := if learn then exp_factor a else 0%Q in
  let available_moves := get_available_moves g None in
  if (length available_moves =? 0)%nat then Raise FullBoardException
  else if (length available_moves =? 1)%nat then index available_moves 0
  else if negb (Qle_bool exp_factor u) then choice pick available_moves
  else
    move_values <-? calc_move_values g a s available_moves;
    best <-? np_max move_values;
    sel <-? mask_select available_moves (map (fun v => Qeq_bool v best) move_values);
    choice pick sel.

(** [DummyAgent.find_move], which asks for the moves of its argument. *)
Definition dummy_find_move (g : game) (s : state) (pick : nat) : result Z :=
  choice pick (get_available_moves g (Some s)).

(** ** Minimax over the game tree

    The value the lookahead is meant to compute, written as a recursion
    over the tree of positions. *)

(** [uf.reduce] over a group; the value on the empty list is never used. *)
Definition reduce (uf : Q -> Q -> Q) (l : list Q) : Q :=
  match l with
  | [] => 0%Q
  | x :: r => fold_left uf r x
  end.

Definition list_min : list Q -> Q := reduce Qmin.
Definition list_max : list Q -> Q := reduce Qmax.

(** The position after [who] plays [move]. *)
Definition child (g : game) (who : string) (s : state) (move : Z) : state :=
  match insert_piece g who move (Some s) with
  | Ok s' => s'
  | Raise _ => s
  end.

(** Terminal reward for a decided position, estimate otherwise. *)
Definition leaf_value (g : game) (a : agent) (s : state) : Q :=
  match check_winner g (Some s) with
  | Some w => calc_reward a (Some w)
  | None => value_model a s
  end.

(** Value of a position in which the agent is to move and [d] pairs of
    plies are still looked ahead: the maximum over its moves of the
    minimum over the replies. *)
Fixpoint minimax_self (g : game) (a : agent) (d : nat) (s : state) : Q :=
  match d with
  | O => leaf_value g a s
  | S d' =>
      list_max (map (fun move =>
        let s1 := child g (name a) s move in
        list_min (map (fun reply =>
            minimax_self g a d' (child g (get_opponent_name g (name a)) s1 reply))
          (get_available_moves g (Some s1))))
        (get_available_moves g (Some s)))
  end.

(** Value of a position in which the opponent is to move: the minimum
    over its replies. *)
Definition minimax_opp (g : game) (a : agent) (d : nat) (s : state) : Q :=
  list_min (map (fun reply =>
      minimax_self g a d (child g (get_opponent_name g (name a)) s reply))
    (get_available_moves g (Some s))).

(** Value of the first move [move] at the lookahead depth of the agent. *)
Definition move_value (g : game) (a : agent) (s : state) (move : Z) : Q :=
  minimax_opp g a (Z.to_nat (iteration a - 1)) (child g (name a) s move).

(** ** Sample objects *)

Definition g0 : game := Game "A" "B" zeros.
Definition a0 : agent := Agent "A" 0 1 (fun _ => 0%Q).

(** A full board without a vertical line of four, on which both sides
    own horizontal lines of four. *)
Definition full_rows : state :=
  [ [ 1;  1;  1;  1; -1; -1; -1];
    [-1; -1; -1; -1;  1;  1;  1];
    [ 1;  1;  1;  1; -1; -1; -1];
    [-1; -1; -1; -1;  1;  1;  1];
    [ 1;  1;  1;  1; -1; -1; -1];
    [-1; -1; -1; -1;  1;  1;  1] ].

(** A board with one piece hanging at the top of column 0. *)
Definition floating : state :=
  [ [1; 0; 0; 0; 0; 0; 0];
    [0; 0; 0; 0; 0; 0; 0];
    [0; 0; 0; 0; 0; 0; 0];
    [0; 0; 0; 0; 0; 0; 0];
    [0; 0; 0; 0; 0; 0; 0];
    [0; 0; 0; 0; 0; 0; 0] ].

(** Two lines of four on a board that still has room: player 1 in the
    bottom row, player 2 in the row above. *)
Definition two_lines : state :=
  [ [ 0;  0;  0;  0; 0; 0; 0];
    [ 0;  0;  0;  0; 0; 0; 0];
    [ 0;  0;  0;  0; 0; 0; 0];
    [ 0;  0;  0;  0; 0; 0; 0];
    [-1; -1; -1; -1; 0; 0; 0];
    [ 1;  1;  1;  1; 0; 0; 0] ].

(** The board after a first drop of player 1 in column 3. *)
Definition one_piece : state :=
  [ [0; 0; 0; 0; 0; 0; 0];
    [0; 0; 0; 0; 0; 0; 0];
    [0; 0; 0; 0; 0; 0; 0];
    [0; 0; 0; 0; 0; 0; 0];
    [0; 0; 0; 0; 0; 0; 0];
    [0; 0; 0; 1; 0; 0; 0] ].

(** Player 1 has completed a vertical line in column 3 after the drops
    3, 0, 3, 0, 3, 0, 3. *)
Definition vertical_win : state :=
  [ [ 0; 0; 0; 0; 0; 0; 0];
    [ 0; 0; 0; 0; 0; 0; 0];
    [ 0; 0; 0; 1; 0; 0; 0];
    [-1; 0; 0; 1; 0; 0; 0];
    [-1; 0; 0; 1; 0; 0; 0];
    [-1; 0; 0; 1; 0; 0; 0] ].

(** Player 2 threatens to complete column 0; player 1 is to move. *)
Definition threat : state :=
  [ [ 0; 0; 0; 0; 0; 0; 0];
    [ 0; 0; 0; 0; 0; 0; 0];
    [ 0; 0; 0; 0; 0; 0; 0];
    [-1; 0; 0; 0; 0; 0; 0];
    [-1; 0; 0; 1; 0; 0; 0];
    [-1; 0; 1; 1; 0; 0; 0] ].

(** An undecided board whose column 0 is full. *)
Definition column0_full : state :=
  [ [-1; 0; 0; 0; 0; 0; 0];
    [ 1; 0; 0; 0; 0; 0; 0];
    [-1; 0; 0; 0; 0; 0; 0];
    [ 1; 0; 0; 0; 0; 0; 0];
    [-1; 0; 0; 0; 0; 0; 0];
    [ 1; 0; 0; 0; 0; 0; 0] ].

(** ** Vocabulary of the properties *)

(** [hit v s k]: some window of pattern [k] scores [v] on [s]. *)
Definition hit (v : Z) (s : state) (k : list (list Z)) : bool :=
  any_eq v (convolve2d s k).

(** Pattern [k] neither finds a line nor ends the loop with a draw. *)
Definition quiet (s : state) (k : list (list Z)) : Prop :=
  hit 4 s k = false /\ hit (-4) s k = false /\ all_occupied s = false.

(** Gravity in one column, read from the top: below a piece there are
    only pieces. *)
Definition gravity_col (v : list Z) : Prop :=
  forall i i' x y, (i < i')%nat -> v !! i = Some x -> v !! i' = Some y ->
                   x <> EMPTY -> y <> EMPTY.

Definition gravity (s : state) : Prop :=
  forall j, (j < n_cols)%nat -> gravity_col (column s j).

(** Row [r] is the lowest EMPTY cell of column [j]. *)
Definition lowest_empty (s : state) (j r : nat) : Prop :=
  (r < height s)%nat /\ cell s r j = EMPTY
  /\ forall i, (r < i < height s)%nat -> cell s i j <> EMPTY.

(** Boards built from the empty board by successful calls of
    [insert_piece]. *)
Inductive reachable (g : game) : state -> Prop :=
  | reach_zeros : reachable g zeros
  | reach_insert s player_name col s' :
      reachable g s ->
      insert_piece g player_name col (Some s) = Ok s' ->
      reachable g s'.

(** The rows one node contributes to the next level, and the next level,
    when no drop raises. *)
Definition children (g : game) (who : string) (r : node) : list node :=
  map (fun move =>
         (tag_of r,
          String.append (tag_of r) (if move =? NO_MOVE then ""%string else fmt move),
          child g who (state_of r) move))
      (get_available_moves g (Some (state_of r))).

Definition next_level (g : game) (who : string) (rows : list node) : list node :=
  flat_map (children g who) rows.

(** One round of the expansion loop, and what [n] rounds leave behind. *)
Definition round (g : game) (a : agent) (rows : list node) : list node :=
  next_level g (get_opponent_name g (name a)) (next_level g (name a) rows).

Fixpoint leaves (g : game) (a : agent) (n : nat) (rows : list node) : list node :=
  match n with
  | O => rows
  | S n' => leaves g a n' (round g a rows)
  end.

Fixpoint self_tags (g : game) (a : agent) (n : nat) (rows : list node)
  : list (list string) :=
  match n with
  | O => []
  | S n' => map prev_of (next_level g (name a) rows)
            :: self_tags g a n' (round g a rows)
  end.

Fixpoint opp_tags (g : game) (a : agent) (n : nat) (rows : list node)
  : list (list string) :=
  match n with
  | O => []
  | S n' => map prev_of (round g a rows) :: opp_tags g a n' (round g a rows)
  end.

(** The reduction part of [calc_move_values], from the leaf scores on,
    over the indices [idxs]. *)
Definition reduction (g : game) (a : agent) (final_states : list state)
    (self_move_idx opp_move_idx : list (list string)) (idxs : list nat)
  : result (list Q) :=
  ko <-? index_last opp_move_idx;
  state_values <-? groupby_np (score_leaves g a final_states) ko Qmin;
  reduce_rounds idxs self_move_idx opp_move_idx state_values.

(** Two tags of which neither starts with the other. *)
Definition apart (t1 t2 : string) : Prop :=
  String.prefix t1 t2 = false /\ String.prefix t2 t1 = false.

Fixpoint all_apart (l : list string) : Prop :=
  match l with
  | [] => True
  | t :: r => Forall (apart t) r /\ all_apart r
  end.

(** What the expansion maintains on every level. *)
Definition level_ok (rows : list node) : Prop :=
  rows <> [] /\ Forall (fun r => wf_state (state_of r)) rows
  /\ all_apart (map tag_of rows).

(** ** Players and the game loop *)

(** The three kinds of player: [Player] itself, which asks a human,
    [DummyAgent] and [DeepAgent]. *)
Inductive player : Type :=
  | Human (pname : string)
  | DummyAgent (pname : string)
  | DeepAgent (a : agent).

Definition player_name (p : player) : string :=
  match p with
  | Human n => n
  | DummyAgent n => n
  | DeepAgent a => name a
  end.

Definition is_human (p : player) : bool :=
  match p with
  | Human _ => true
  | _ => false
  end.

(** What the outside supplies for one turn: the outcomes of
    [random.random()] and of [random.choice], and the lines a human
    types, each given as the outcome of [int(...)] on it, an integer or
    [None] for a ValueError. *)
Record draw : Type := MkDraw {
  unit_draw : Q;
  pick_draw : nat;
  typed : list (option Z)
}.

(** How a call into the loop ends: with a value, with an exception, while
    waiting for a line nobody types, or when the steps granted are used
    up. *)
Inductive run (A : Type) : Type :=
  | Done (x : A)
  | Failed (e : exn)
  | NoInput
  | NoFuel.
Arguments Done {A} x.
Arguments Failed {A} e.
Arguments NoInput {A}.
Arguments NoFuel {A}.

Definition of_result {A : Type} (r : result A) : run A :=
  match r with
  | Ok x => Done x
  | Raise e => Failed e
  end.

(** The [while not valid_move] loop of [Player.find_move] over the lines
    typed. *)
Fixpoint read_move (available_moves : list Z) (lines : list (option Z))
  : option Z :=
  match lines with
  | [] => None
  | Some move :: rest =>
      if bool_decide (move ∈ available_moves) then Some move
      else read_move available_moves rest
  | None :: rest => read_move available_moves rest
  end.

Definition human_find_move (g : game) (s : state) (lines : list (option Z))
  : run Z :=
  match read_move (get_available_moves g (Some s)) lines with
  | Some move => Done move
  | None => NoInput
  end.

(** The fields of a [VierGewinnt] instance the game loop works on. *)
Record vier : Type := Vier {
  first_player : player;
  second_player : player;
  board : state;
  winner : option outcome;
  turn_player : player;
  game_history : list (string * state)
}.

(** The view of the instance the board methods read. *)
Definition game_of (v : vier) : game :=
  Game (player_name (first_player v)) (player_name (second_player v)) (board v).

Definition init_game (v : vier) : vier :=
  Vier (first_player v) (second_player v) zeros None (first_player v) [].

Definition next_player (v : vier) : vier :=
  Vier (first_player v) (second_player v) (board v) (winner v)
       (if String.eqb (player_name (turn_player v)) (player_name (first_player v))
        then second_player v else first_player v)
       (game_history v).

(** [self.turn_player.find_move(self.state, learn)] *)
Definition player_find_move (g : game) (p : player) (s : state) (learn : bool)
    (d : draw) : run Z :=
  match p with
  | Human _ => human_find_move g s (typed d)
  | DummyAgent _ => of_result (dummy_find_move g s (pick_draw d))
  | DeepAgent a => of_result (find_move g a s learn (unit_draw d) (pick_draw d))
  end.

(** [play_move]: the instance after the call and the board returned. *)
Definition play_move (v : vier) (learn : bool) (d : draw) : run (vier * state) :=
  let v1 := Vier (first_player v) (second_player v) (board v) (winner v)
                 (turn_player v)
                 (game_history v ++ [(player_name (turn_player v), board v)]) in
  match player_find_move (game_of v1) (turn_player v1) (board v1) learn d with
  | Done move =>
      match insert_piece (game_of v1) (player_name (turn_player v1)) move None with
      | Ok new_state => Done (next_player v1, new_state)
      | Raise e => Failed e
      end
  | Failed e => Failed e
  | NoInput => NoInput
  | NoFuel => NoFuel
  end.

(** The [while self.winner is None] loop of [play_game] and of
    [play_games_for_learning], turn [n] using [draws n]. *)
Fixpoint play_loop (fuel : nat) (learn : bool) (draws : nat -> draw) (n : nat)
    (v : vier) : run vier :=
  match fuel with
  | O => NoFuel
  | S fuel' =>
      match play_move v learn (draws n) with
      | Done (v1, new_state) =>
          let v2 := Vier (first_player v1) (second_player v1) new_state
                         (winner v1) (turn_player v1) (game_history v1) in
          let v3 := Vier (first_player v2) (second_player v2) (board v2)
                         (check_winner (game_of v2) None)
                         (turn_player v2) (game_history v2) in
          match winner v3 with
          | Some _ => Done v3
          | None => play_loop fuel' learn draws (S n) v3
          end
      | Failed e => Failed e
      | NoInput => NoInput
      | NoFuel => NoFuel
      end
  end.

(** One game from [init_game] to the entry recorded for the final
    position. *)
Definition play_episode (fuel : nat) (learn : bool) (draws : nat -> draw)
    (v : vier) : run vier :=
  match play_loop fuel learn draws 0 (init_game v) with
  | Done v' =>
      Done (Vier (first_player v') (second_player v') (board v') (winner v')
                 (turn_player v')
                 (game_history v' ++ [(player_name (turn_player v'), board v')]))
  | Failed e => Failed e
  | NoInput => NoInput
  | NoFuel => NoFuel
  end.

(** [play_game]: the instance after the game and the winner returned. *)
Definition play_game (fuel : nat) (draws : nat -> draw) (v : vier)
  : run (vier * option outcome) :=
  match play_episode fuel false draws v with
  | Done v' => Done (v', winner v')
  | Failed e => Failed e
  | NoInput => NoInput
  | NoFuel => NoFuel
  end.

(** ** More vocabulary *)

(** The number of EMPTY cells of a board, column by column. *)
Definition total_empty (s : state) : nat :=
  sum_list_with (fun j => count_empty (column s j)) (seq 0 n_cols).

(** Every cell holds 0, +1 or -1. *)
Definition cells_ok (s : state) : Prop :=
  Forall (Forall (fun v => v = 0 \/ v = 1 \/ v = -1)) s.

(** The four cells of the window at [(i, j)] in direction [d]: vertical,
    horizontal, diagonal down-right, diagonal down-left. *)
Definition line_cells (d i j : nat) : list (nat * nat) :=
  match d with
  | 0%nat => [(i, j); (i + 1, j); (i + 2, j); (i + 3, j)]%nat
  | 1%nat => [(i, j); (i, j + 1); (i, j + 2); (i, j + 3)]%nat
  | 2%nat => [(i, j); (i + 1, j + 1); (i + 2, j + 2); (i + 3, j + 3)]%nat
  | _ => [(i, j + 3); (i + 1, j + 2); (i + 2, j + 1); (i + 3, j)]%nat
  end.

(** Some line of four cells inside the board holds [v] four times. *)
Definition has_line (s : state) (v : Z) : Prop :=
  exists d i j,
    (d < 4)%nat
    /\ Forall (fun rc : nat * nat =>
                 (rc.1 < n_rows)%nat /\ (rc.2 < n_cols)%nat /\ cell s rc.1 rc.2 = v)
              (line_cells d i j).

(** Consecutive entries of the history: the first names the mover and
    holds the undecided position it moved from, the second holds the
    position after its drop and names the other player. *)
Definition history_step (g : game) (e1 e2 : string * state) : Prop :=
  check_winner g (Some e1.2) = None
  /\ e2.1 = get_opponent_name g e1.1
  /\ exists col, 0 <= col < 7 /\ insert_piece g e1.1 col (Some e1.2) = Ok e2.2.

Fixpoint history_chain (g : game) (l : list (string * state)) : Prop :=
  match l with
  | e1 :: rest =>
      match rest with
      | e2 :: _ => history_step g e1 e2 /\ history_chain g rest
      | [] => True
      end
  | [] => True
  end.

(** The history as [play_game] will leave it if the game ends now. *)
Definition full_history (v : vier) : list (string * state) :=
  game_history v ++ [(player_name (turn_player v), board v)].

(** What holds of the instance whenever the loop tests its condition. *)
Definition loop_inv (v : vier) : Prop :=
  wf_state (board v) /\ gravity (board v)
  /\ (turn_player v = first_player v \/ turn_player v = second_player v)
  /\ history_chain (game_of v) (full_history v)
  /\ head (full_history v) = Some (player_name (first_player v), zeros)
  /\ (length (full_history v) + total_empty (board v) = 43)%nat
  /\ cells_ok (board v).

(** A game of two random players that always take the first move
    offered. *)
Definition dummies : vier :=
  Vier (DummyAgent "A") (DummyAgent "B") zeros None (DummyAgent "A") [].

Definition no_draw : nat -> draw := fun _ => MkDraw 0 0 [].

(** * Properties *)

(** ** The pattern loop *)

Lemma check_patterns_skip g s pre ks :
  Forall (quiet s) pre ->
  check_patterns g s (pre ++ ks) = check_patterns g s ks.
Proof.
  induction 1 as [|k pre (H4 & Hm4 & Hocc) _ IH]; [reflexivity|].
  simpl. unfold hit in H4, Hm4. rewrite H4, Hm4, Hocc. exact IH.
Qed.

Lemma check_patterns_reach g s ks i k :
  ks !! i = Some k ->
  (forall i' k', (i' < i)%nat -> ks !! i' = Some k' -> quiet s k') ->
  check_patterns g s ks = check_patterns g s (k :: drop (S i) ks).
Proof.
  intros Hk Hq.
  rewrite <- (take_drop_middle ks i k Hk) at 1.
  apply check_patterns_skip.
  apply Forall_lookup. intros i' k' Hi'.
  apply lookup_take_Some in Hi' as [Hi' Hlt]. eauto.
Qed.

Lemma conv_vertical s i j :
  conv_at s [[1]; [1]; [1]; [1]] i j =
  cell s i j + cell s (i + 1) j + cell s (i + 2) j + cell s (i + 3) j.
Proof.
  unfold conv_at. cbn. rewrite !Nat.add_0_r. lia.
Qed.

Lemma conv_horizontal s i j :
  conv_at s [[1; 1; 1; 1]] i j =
  cell s i j + cell s i (j + 1) + cell s i (j + 2) + cell s i (j + 3).
Proof.
  unfold conv_at. cbn. rewrite !Nat.add_0_r. lia.
Qed.

Lemma conv_diag_down_right s i j :
  conv_at s [[1; 0; 0; 0]; [0; 1; 0; 0]; [0; 0; 1; 0]; [0; 0; 0; 1]] i j =
  cell s i j + cell s (i + 1) (j + 1) + cell s (i + 2) (j + 2)
  + cell s (i + 3) (j + 3).
Proof.
  unfold conv_at. cbn. rewrite !Nat.add_0_r. lia.
Qed.

Lemma conv_diag_down_left s i j :
  conv_at s [[0; 0; 0; 1]; [0; 0; 1; 0]; [0; 1; 0; 0]; [1; 0; 0; 0]] i j =
  cell s i (j + 3) + cell s (i + 1) (j + 2) + cell s (i + 2) (j + 1)
  + cell s (i + 3) j.
Proof.
  unfold conv_at. cbn. rewrite !Nat.add_0_r. lia.
Qed.

(** A pattern hits exactly when one of its windows inside the board has
    the score. *)
Lemma hit_window v s k :
  hit v s k = true <->
  exists i j, (i < height s - height k + 1)%nat
              /\ (j < width s - width k + 1)%nat
              /\ conv_at s k i j = v.
Proof.
  unfold hit, any_eq, convolve2d. rewrite existsb_exists. split.
  - intros (row & Hrow & Hex).
    apply in_map_iff in Hrow as (i & <- & Hi). apply in_seq in Hi.
    apply existsb_exists in Hex as (x & Hx & Hv).
    apply in_map_iff in Hx as (j & <- & Hj). apply in_seq in Hj.
    apply Z.eqb_eq in Hv. exists i, j. repeat split; [lia | lia | congruence].
  - intros (i & j & Hi & Hj & Hv).
    exists (map (fun j => conv_at s k i j) (seq 0 (width s - width k + 1))).
    split.
    + apply in_map_iff. exists i. split; [reflexivity|]. apply in_seq. lia.
    + apply existsb_exists. exists (conv_at s k i j). split.
      * apply in_map_iff. exists j. split; [reflexivity|]. apply in_seq. lia.
      * apply Z.eqb_eq. congruence.
Qed.

(** With cells in -1, 0, 1 a window scores +4 (or -4) only when its four
    cells all hold +1 (or -1). *)
Lemma four_in_a_row (c1 c2 c3 c4 : Z) :
  -1 <= c1 <= 1 -> -1 <= c2 <= 1 -> -1 <= c3 <= 1 -> -1 <= c4 <= 1 ->
  (c1 + c2 + c3 + c4 = 4 <-> c1 = 1 /\ c2 = 1 /\ c3 = 1 /\ c4 = 1)
  /\ (c1 + c2 + c3 + c4 = -4 <-> c1 = -1 /\ c2 = -1 /\ c3 = -1 /\ c4 = -1).
Proof. lia. Qed.

(** C2: [check_winner] walks the patterns vertical, horizontal,
    diagonal down-right, diagonal down-left in this order.  At the first
    pattern it reaches that scores +4 it answers player 1, else if the
    pattern scores -4 it answers player 2, else if the board has no EMPTY
    cell it answers draw, whatever the later patterns would find; when no
    pattern scores and an EMPTY cell remains it answers [None]. *)
Theorem check_winner_pattern_order (g : game) (st : option state) :
  let s := resolve g st in
  (forall i j,
      (winner_positions !! 0%nat = Some [[1]; [1]; [1]; [1]]
       /\ conv_at s [[1]; [1]; [1]; [1]] i j =
          cell s i j + cell s (i + 1) j + cell s (i + 2) j + cell s (i + 3) j)
   /\ (winner_positions !! 1%nat = Some [[1; 1; 1; 1]]
       /\ conv_at s [[1; 1; 1; 1]] i j =
          cell s i j + cell s i (j + 1) + cell s i (j + 2) + cell s i (j + 3))
   /\ (exists k, winner_positions !! 2%nat = Some k
       /\ conv_at s k i j =
          cell s i j + cell s (i + 1) (j + 1) + cell s (i + 2) (j + 2)
          + cell s (i + 3) (j + 3))
   /\ (exists k, winner_positions !! 3%nat = Some k
       /\ conv_at s k i j =
          cell s i (j + 3) + cell s (i + 1) (j + 2) + cell s (i + 2) (j + 1)
          + cell s (i + 3) j)
   /\ length winner_positions = 4%nat)
  /\ (forall i k,
      winner_positions !! i = Some k ->
      (forall i' k', (i' < i)%nat -> winner_positions !! i' = Some k' ->
                     quiet s k') ->
      (hit 4 s k = true -> check_winner g st = Some (Winner (player1 g)))
      /\ (hit 4 s k = false -> hit (-4) s k = true ->
          check_winner g st = Some (Winner (player2 g)))
      /\ (hit 4 s k = false -> hit (-4) s k = false ->
          all_occupied s = true -> check_winner g st = Some Draw))
  /\ ((forall k, k ∈ winner_positions ->
                 hit 4 s k = false /\ hit (-4) s k = false) ->
      all_occupied s = false -> check_winner g st = None).
Proof.
  intros s. split; [|split].
  - intros i j. split; [|split; [|split; [|split]]].
    + split; [reflexivity | apply conv_vertical].
    + split; [reflexivity | apply conv_horizontal].
    + eexists; split; [reflexivity | apply conv_diag_down_right].
    + eexists; split; [reflexivity | apply conv_diag_down_left].
    + reflexivity.
  - intros i k Hk Hq. unfold check_winner. fold s.
    rewrite (check_patterns_reach g s _ i k Hk Hq). simpl.
    unfold hit. split; [|split].
    + intros ->. reflexivity.
    + intros -> ->. reflexivity.
    + intros -> -> ->. reflexivity.
  - intros Hq Hocc. unfold check_winner. fold s.
    rewrite <- (app_nil_r winner_positions).
    rewrite check_patterns_skip; [reflexivity|].
    apply Forall_forall. intros k Hk. destruct (Hq k Hk) as [H4 Hm4].
    repeat split; assumption.
Qed.

(** A full board with horizontal lines of both sides is a draw: the loop
    stops at the vertical pattern. *)
Example check_winner_full_rows :
  check_winner g0 (Some full_rows) = Some Draw
  /\ hit 4 full_rows [[1; 1; 1; 1]] = true.
Proof. split; reflexivity. Qed.

(** ** Lists and columns *)

Lemma map_fmap {A B : Type} (f : A -> B) (l : list A) : map f l = f <$> l.
Proof. reflexivity. Qed.

Lemma column_lookup s j i :
  column s j !! i = (fun r => default 0 (r !! j)) <$> (s !! i).
Proof. unfold column. rewrite map_fmap. apply list_lookup_fmap. Qed.

Lemma column_length s j : length (column s j) = length s.
Proof. unfold column. apply length_map. Qed.

Lemma cell_column s i j :
  (i < length s)%nat -> column s j !! i = Some (cell s i j).
Proof.
  intros Hi. rewrite column_lookup. unfold cell.
  destruct (lookup_lt_is_Some_2 s i Hi) as [r E].
  rewrite !E. reflexivity.
Qed.

Lemma count_empty_pos (v : list Z) :
  (0 < count_empty v)%nat <-> exists i, v !! i = Some EMPTY.
Proof.
  unfold count_empty. rewrite <- list_elem_of_lookup. split.
  - intros H. destruct (filter _ v) as [|x l] eqn:E; [simpl in H; lia|].
    assert (Hx : x ∈ filter (fun x => x = EMPTY) v) by (rewrite E; left).
    apply list_elem_of_filter in Hx as [-> Hx]. exact Hx.
  - intros H.
    assert (Hx : EMPTY ∈ filter (fun x => x = EMPTY) v)
      by (apply list_elem_of_filter; split; [reflexivity | exact H]).
    destruct (filter _ v); [inversion Hx | simpl; lia].
Qed.

Lemma column_has_empty s j :
  (0 < count_empty (column s j))%nat <->
  exists i, (i < height s)%nat /\ cell s i j = EMPTY.
Proof.
  rewrite count_empty_pos. unfold height. split.
  - intros [i Hi]. exists i.
    assert (Hlt : (i < length s)%nat).
    { apply lookup_lt_Some in Hi. rewrite column_length in Hi. exact Hi. }
    split; [exact Hlt|]. rewrite (cell_column s i j Hlt) in Hi. congruence.
  - intros (i & Hlt & Hc). exists i. rewrite (cell_column s i j Hlt). congruence.
Qed.

Lemma StronglySorted_filter {A : Type} (R : A -> A -> Prop) (P : A -> Prop)
    `{!forall x, Decision (P x)} (l : list A) :
  StronglySorted R l -> StronglySorted R (filter P l).
Proof.
  induction 1 as [|x l Hs IH Hx]; [constructor|].
  rewrite filter_cons. destruct (decide (P x)); [|exact IH].
  constructor; [exact IH|].
  apply Forall_forall. intros y Hy. apply list_elem_of_filter in Hy as [_ Hy].
  rewrite Forall_forall in Hx. auto.
Qed.

Lemma arange_sorted n : StronglySorted Z.lt (arange n).
Proof.
  unfold arange. generalize 0. induction n as [|n IH]; intros m.
  - constructor.
  - rewrite Nat2Z.inj_succ, seqZ_cons by lia.
    replace (Z.pred (Z.succ (Z.of_nat n))) with (Z.of_nat n) by lia.
    constructor; [apply IH|].
    apply Forall_forall. intros y Hy. apply elem_of_seqZ in Hy. lia.
Qed.

Lemma available_moves_decided (g : game) (st : option state) :
  check_winner g st <> None -> get_available_moves g st = [NO_MOVE].
Proof.
  intros Hw. unfold get_available_moves.
  change (check_winner g (Some (resolve g st))) with (check_winner g st).
  destruct (check_winner g st); [reflexivity | contradiction].
Qed.

Lemma available_moves_open (g : game) (st : option state) (c : Z) :
  check_winner g st = None ->
  c ∈ get_available_moves g st <->
  0 <= c < 7
  /\ exists i, (i < height (resolve g st))%nat
               /\ cell (resolve g st) i (Z.to_nat c) = EMPTY.
Proof.
  intros Hw. unfold get_available_moves.
  change (check_winner g (Some (resolve g st))) with (check_winner g st).
  rewrite Hw, list_elem_of_filter, column_has_empty.
  unfold arange. rewrite elem_of_seqZ. unfold n_cols. intuition lia.
Qed.

(** C3: [get_available_moves] answers [[NO_MOVE]] exactly when
    [check_winner] reports a decided game; on an undecided board it
    answers the columns 0..6 that hold an EMPTY cell, each once, in
    ascending order. *)
Theorem get_available_moves_spec (g : game) (st : option state) :
  let s := resolve g st in
  (get_available_moves g st = [NO_MOVE] <-> check_winner g st <> None)
  /\ (check_winner g st = None ->
      StronglySorted Z.lt (get_available_moves g st)
      /\ forall c, c ∈ get_available_moves g st <->
                   0 <= c < 7
                   /\ exists i, (i < height s)%nat
                                /\ cell s i (Z.to_nat c) = EMPTY).
Proof.
  intros s. split.
  - split; [|apply available_moves_decided].
    intros E Hw.
    assert (Hc : NO_MOVE ∈ get_available_moves g st) by (rewrite E; left).
    apply (available_moves_open g st NO_MOVE Hw) in Hc.
    unfold NO_MOVE in Hc. lia.
  - intros Hw. split; [|intros c; apply available_moves_open, Hw].
    unfold get_available_moves.
    change (check_winner g (Some (resolve g st))) with (check_winner g st).
    rewrite Hw. apply StronglySorted_filter, arange_sorted.
Qed.

Lemma get_available_moves_spec_witness :
  StronglySorted Z.lt (get_available_moves g0 (Some column0_full))
  /\ forall c, c ∈ get_available_moves g0 (Some column0_full) <->
               0 <= c < 7
               /\ exists i, (i < height column0_full)%nat
                            /\ cell column0_full i (Z.to_nat c) = EMPTY.
Proof.
  destruct (get_available_moves_spec g0 (Some column0_full)) as [_ H].
  apply H. reflexivity.
Defined.

(** ** Player 1 is tested first *)

(** C10 as stated fails on a full board: both sides own horizontal lines,
    the vertical pattern finds nothing, and the answer is a draw. *)
Lemma player1_first_counterexample :
  ~ (forall (g : game) (s : state) (i : nat) (k : list (list Z)),
        wf_state s ->
        winner_positions !! i = Some k ->
        (forall i' k', (i' < i)%nat -> winner_positions !! i' = Some k' ->
                       hit 4 s k' = false /\ hit (-4) s k' = false) ->
        hit 4 s k = true -> hit (-4) s k = true ->
        check_winner g (Some s) = Some (Winner (player1 g))).
Proof.
  intros H.
  specialize (H g0 full_rows 1%nat [[1; 1; 1; 1]]).
  assert (Hwf : wf_state full_rows).
  { split; [reflexivity | repeat constructor]. }
  specialize (H Hwf eq_refl).
  assert (Hq : forall i' k', (i' < 1)%nat -> winner_positions !! i' = Some k' ->
                 hit 4 full_rows k' = false /\ hit (-4) full_rows k' = false).
  { intros i' k' Hlt Hk. assert (i' = 0%nat) as -> by lia.
    injection Hk as <-. split; reflexivity. }
  specialize (H Hq eq_refl eq_refl). discriminate H.
Qed.

(** C10, amended: inside one pattern +4 is tested before -4, so when the
    first pattern matching either side matches both, and that pattern is
    the vertical one or the board still has an EMPTY cell, player 1 is
    declared the winner. *)
Theorem player1_first (g : game) (st : option state) (i : nat)
    (k : list (list Z)) :
  let s := resolve g st in
  winner_positions !! i = Some k ->
  (forall i' k', (i' < i)%nat -> winner_positions !! i' = Some k' ->
                 hit 4 s k' = false /\ hit (-4) s k' = false) ->
  i = 0%nat \/ all_occupied s = false ->
  hit 4 s k = true -> hit (-4) s k = true ->
  check_winner g st = Some (Winner (player1 g)).
Proof.
  intros s Hk Hq Hroom H4 _.
  unfold check_winner. fold s.
  rewrite (check_patterns_reach g s _ i k Hk).
  - simpl. unfold hit in H4. rewrite H4. reflexivity.
  - intros i' k' Hlt Hk'. destruct Hroom as [-> | Hocc]; [lia|].
    destruct (Hq i' k' Hlt Hk') as [? ?]. repeat split; assumption.
Qed.

Lemma player1_first_witness :
  check_winner g0 (Some two_lines) = Some (Winner "A"%string).
Proof.
  apply (player1_first g0 (Some two_lines) 1 [[1; 1; 1; 1]]).
  - reflexivity.
  - intros i' k' Hlt Hk. assert (i' = 0%nat) as -> by lia.
    injection Hk as <-. split; reflexivity.
  - right. reflexivity.
  - reflexivity.
  - reflexivity.
Defined.

Lemma check_winner_pattern_order_witness :
  check_winner g0 (Some full_rows) = Some Draw.
Proof.
  destruct (check_winner_pattern_order g0 (Some full_rows)) as (_ & H & _).
  destruct (H 0%nat [[1]; [1]; [1]; [1]] eq_refl) as (_ & _ & Hd).
  - intros i' k' Hlt. lia.
  - apply Hd; reflexivity.
Defined.

(** ** NO_MOVE *)

(** C8: with the NO_MOVE sentinel as column, [insert_piece] raises
    nothing and returns the board it was given, whatever the board; on
    references it returns the very reference and leaves the store as it
    is. *)
Theorem insert_piece_no_move (g : game) (player_name : string) :
  (forall st, insert_piece g player_name NO_MOVE st = Ok (resolve g st))
  /\ (forall (h : store) (l : nat) (s : state),
        h !! l = Some s ->
        insert_piece_obj g player_name NO_MOVE l h = (h, Ok l)).
Proof.
  split.
  - intros st. reflexivity.
  - intros h l s Hl. unfold insert_piece_obj, mbind, read. rewrite Hl.
    reflexivity.
Qed.

Lemma insert_piece_no_move_witness :
  insert_piece g0 "B" NO_MOVE (Some full_rows) = Ok full_rows
  /\ insert_piece_obj g0 "B" NO_MOVE 0 {[0%nat := full_rows]}
     = ({[0%nat := full_rows]}, Ok 0%nat).
Proof.
  destruct (insert_piece_no_move g0 "B") as [H1 H2]. split.
  - apply H1.
  - apply (H2 _ _ full_rows). apply lookup_singleton_eq.
Defined.

(** ** Dropping a piece *)

Lemma wf_lookup s i :
  wf_state s -> (i < n_rows)%nat -> exists r, s !! i = Some r /\ length r = n_cols.
Proof.
  intros [Hlen Hrows] Hi.
  destruct (lookup_lt_is_Some_2 s i) as [r Hr]; [lia|].
  exists r. split; [exact Hr|].
  rewrite Forall_lookup in Hrows. eauto.
Qed.

Lemma set_cell_wf s i j v : wf_state s -> wf_state (set_cell s i j v).
Proof.
  intros [Hlen Hrows]. unfold set_cell.
  destruct (s !! i) as [r|] eqn:Hr; [|split; assumption].
  split; [rewrite length_insert; exact Hlen|].
  apply Forall_insert; [exact Hrows|]. simpl. rewrite length_insert.
  rewrite Forall_lookup in Hrows. eauto.
Qed.

Lemma cell_set_cell s i j v i' j' :
  wf_state s -> (i < n_rows)%nat -> (j < n_cols)%nat ->
  cell (set_cell s i j v) i' j' =
  if decide (i' = i /\ j' = j) then v else cell s i' j'.
Proof.
  intros Hwf Hi Hj. destruct (wf_lookup s i Hwf Hi) as (r & Hr & Hlen).
  unfold set_cell, cell. rewrite Hr.
  destruct (decide (i' = i)) as [->|Hne].
  - rewrite list_lookup_insert_eq by (apply lookup_lt_Some in Hr; exact Hr).
    rewrite Hr. destruct (decide (j' = j)) as [->|Hnj].
    + rewrite list_lookup_insert_eq by lia.
      rewrite decide_True by auto. reflexivity.
    + rewrite list_lookup_insert_ne by auto.
      rewrite decide_False by tauto. reflexivity.
  - rewrite list_lookup_insert_ne by auto.
    rewrite decide_False by tauto. reflexivity.
Qed.

Lemma column_set_cell s i j v j' :
  wf_state s -> (i < n_rows)%nat -> (j < n_cols)%nat ->
  column (set_cell s i j v) j' =
  if decide (j' = j) then <[i := v]> (column s j) else column s j'.
Proof.
  intros Hwf Hi Hj. destruct (wf_lookup s i Hwf Hi) as (r & Hr & Hlen).
  unfold set_cell, column. rewrite Hr, !map_fmap.
  rewrite list_fmap_insert. destruct (decide (j' = j)) as [->|Hne].
  - rewrite list_lookup_insert_eq by lia. reflexivity.
  - rewrite list_lookup_insert_ne by auto.
    apply list_insert_id. rewrite list_lookup_fmap, Hr. reflexivity.
Qed.

Lemma count_empty_cons x v :
  count_empty (x :: v) =
  if decide (x = EMPTY) then S (count_empty v) else count_empty v.
Proof.
  unfold count_empty. rewrite filter_cons.
  destruct (decide (x = EMPTY)); reflexivity.
Qed.

Lemma count_empty_le v : (count_empty v <= length v)%nat.
Proof. apply length_filter. Qed.

Lemma shape_gravity k w :
  Forall (fun x => x <> EMPTY) w -> gravity_col (replicate k EMPTY ++ w).
Proof.
  intros Hw i i' x y Hlt Hi Hi' Hx.
  destruct (decide (i < k)%nat) as [Hik|Hik].
  - rewrite lookup_app_l in Hi by (rewrite length_replicate; exact Hik).
    rewrite lookup_replicate_2 in Hi by exact Hik. congruence.
  - rewrite lookup_app_r in Hi' by (rewrite length_replicate; lia).
    rewrite Forall_lookup in Hw. eauto.
Qed.

Lemma gravity_shape v :
  gravity_col v ->
  exists w, v = replicate (count_empty v) EMPTY ++ w
            /\ Forall (fun x => x <> EMPTY) w.
Proof.
  induction v as [|x v IH]; intros Hg.
  - exists []. split; [reflexivity | constructor].
  - destruct IH as (w & Hv & Hw).
    { intros i i' a b Hlt Hi Hi'. apply (Hg (S i) (S i') a b); [lia|exact Hi|exact Hi']. }
    rewrite count_empty_cons. destruct (decide (x = EMPTY)) as [->|Hx].
    + exists w. split; [simpl; congruence | exact Hw].
    + destruct (count_empty v) as [|k] eqn:Hk.
      * exists (x :: w). simpl in *. split; [congruence|].
        constructor; assumption.
      * exfalso. apply (Hg 0%nat 1%nat x EMPTY); [lia|reflexivity| |exact Hx|reflexivity].
        rewrite Hv. reflexivity.
Qed.

Lemma gravity_drop v x :
  gravity_col v -> (0 < count_empty v)%nat -> x <> EMPTY ->
  gravity_col (<[(count_empty v - 1)%nat := x]> v).
Proof.
  intros Hg Hpos Hx. destruct (gravity_shape v Hg) as (w & Hv & Hw).
  destruct (count_empty v) as [|k]; [lia|].
  rewrite Hv, replicate_S_end, <- app_assoc.
  replace (S k - 1)%nat with (length (replicate k EMPTY) + 0)%nat
    by (rewrite length_replicate; lia).
  rewrite insert_app_r. simpl. apply shape_gravity.
  constructor; assumption.
Qed.

Lemma gravity_lowest v :
  gravity_col v -> (0 < count_empty v)%nat ->
  v !! (count_empty v - 1)%nat = Some EMPTY
  /\ forall i y, (count_empty v - 1 < i)%nat -> v !! i = Some y -> y <> EMPTY.
Proof.
  intros Hg Hpos. destruct (gravity_shape v Hg) as (w & Hv & Hw).
  set (k := count_empty v) in *. split.
  - rewrite Hv, lookup_app_l by (rewrite length_replicate; lia).
    apply lookup_replicate_2. lia.
  - intros i y Hi Hy. rewrite Hv in Hy.
    rewrite lookup_app_r in Hy by (rewrite length_replicate; lia).
    rewrite Forall_lookup in Hw. eauto.
Qed.

Lemma col_index_range c j : col_index c = Ok j -> (j < n_cols)%nat.
Proof.
  unfold col_index, n_cols.
  destruct (Z.leb_spec 0 c), (Z.ltb_spec c (Z.of_nat 7)); simpl;
    try (intros [= <-]; lia);
    destruct (Z.leb_spec (- Z.of_nat 7) c), (Z.ltb_spec c 0); simpl;
    try (intros [= <-]; lia); discriminate.
Qed.

Lemma col_index_real c : 0 <= c < 7 -> col_index c = Ok (Z.to_nat c).
Proof.
  intros Hc. unfold col_index, n_cols.
  destruct (Z.leb_spec 0 c), (Z.ltb_spec c (Z.of_nat 7)); simpl;
    try reflexivity; lia.
Qed.

Lemma name2val_value g n v : name2val g !! n = Some v -> v = 1 \/ v = -1.
Proof.
  unfold name2val. intros H.
  apply lookup_insert_Some in H as [[_ <-]|[_ H]]; [auto|].
  apply lookup_insert_Some in H as [[_ <-]|[_ H]]; [auto|].
  rewrite lookup_empty in H. discriminate.
Qed.

(** What a successful call did. *)
Lemma insert_piece_inv g n c s s' :
  insert_piece g n c (Some s) = Ok s' ->
  (c = NO_MOVE /\ s' = s)
  \/ exists j v,
       c <> NO_MOVE /\ col_index c = Ok j
       /\ (0 < count_empty (column s j))%nat
       /\ name2val g !! n = Some v
       /\ s' = set_cell s (count_empty (column s j) - 1) j v.
Proof.
  unfold insert_piece. simpl.
  destruct (Z.eqb_spec c NO_MOVE) as [->|Hc]; [intros [= <-]; auto|].
  destruct (col_index c) as [j|e] eqn:Hj; simpl; [|discriminate].
  destruct (Nat.eqb_spec (count_empty (column s j)) 0) as [|Hn]; [discriminate|].
  destruct (name2val g !! n) as [v|] eqn:Hv; [|discriminate].
  intros [= <-]. right. exists j, v. repeat split; auto. lia.
Qed.

Lemma insert_piece_wf g n c s s' :
  wf_state s -> insert_piece g n c (Some s) = Ok s' -> wf_state s'.
Proof.
  intros Hwf H. apply insert_piece_inv in H as [[_ ->]|(j & v & _ & _ & _ & _ & ->)].
  - exact Hwf.
  - apply set_cell_wf, Hwf.
Qed.

Lemma insert_piece_gravity g n c s s' :
  wf_state s -> gravity s ->
  insert_piece g n c (Some s) = Ok s' -> gravity s'.
Proof.
  intros Hwf Hg H.
  apply insert_piece_inv in H as [[_ ->]|(j & v & _ & Hj & Hpos & Hv & ->)];
    [exact Hg|].
  apply col_index_range in Hj. intros j' Hj'.
  assert (Hrow : (count_empty (column s j) - 1 < n_rows)%nat).
  { pose proof (count_empty_le (column s j)) as Hle.
    rewrite column_length in Hle. destruct Hwf as [Hlen _]. lia. }
  rewrite column_set_cell by assumption.
  destruct (decide (j' = j)) as [->|Hne]; [|apply Hg, Hj'].
  apply gravity_drop; [apply Hg, Hj | exact Hpos |].
  apply name2val_value in Hv. unfold EMPTY. lia.
Qed.

Lemma zeros_wf : wf_state zeros.
Proof. split; [reflexivity | repeat constructor]. Qed.

Lemma zeros_gravity : gravity zeros.
Proof.
  intros j Hj i i' x y _ Hi _ Hx. exfalso. apply Hx.
  unfold EMPTY. rewrite column_lookup in Hi.
  destruct (zeros !! i) as [r|] eqn:Hr; [|discriminate].
  injection Hi as <-. unfold zeros in Hr.
  apply lookup_replicate in Hr as [-> _].
  destruct (replicate n_cols 0 !! j) as [z|] eqn:Hz; [|reflexivity].
  apply lookup_replicate in Hz as [-> _]. reflexivity.
Qed.

(** C7: every board built from the empty board by successful drops keeps
    its shape and has, in every column, no EMPTY cell below a piece; one
    successful [insert_piece] call preserves this. *)
Theorem gravity_invariant (g : game) :
  (forall s, reachable g s -> wf_state s /\ gravity s)
  /\ (forall s player_name col s',
        wf_state s -> gravity s ->
        insert_piece g player_name col (Some s) = Ok s' ->
        gravity s').
Proof.
  split.
  - induction 1 as [|s n c s' _ [Hwf Hg] Hins].
    + split; [apply zeros_wf | apply zeros_gravity].
    + split; [eapply insert_piece_wf | eapply insert_piece_gravity]; eauto.
  - intros s n c s'. apply insert_piece_gravity.
Qed.

Lemma gravity_invariant_witness : gravity one_piece.
Proof.
  destruct (gravity_invariant g0) as [_ H].
  apply (H zeros "A"%string 3).
  - apply zeros_wf.
  - apply zeros_gravity.
  - reflexivity.
Defined.

(** [insert_piece] on references computes what [insert_piece] on boards
    computes, allocates the result, and overwrites nothing. *)
Lemma insert_piece_obj_spec g n c l (h : store) s :
  h !! l = Some s ->
  exists h' res,
    insert_piece_obj g n c l h = (h', res)
    /\ h' !! l = Some s
    /\ h ⊆ h'
    /\ match insert_piece g n c (Some s) with
       | Ok s' =>
           exists l', res = Ok l' /\ h' !! l' = Some s'
                      /\ (c = NO_MOVE -> l' = l /\ h' = h)
                      /\ (c <> NO_MOVE -> h !! l' = None)
       | Raise e => res = Raise e
       end.
Proof.
  intros Hl. unfold insert_piece_obj, insert_piece, mbind, read, lift, throw, ret.
  rewrite Hl. simpl.
  destruct (Z.eqb_spec c NO_MOVE) as [->|Hc].
  { exists h, (Ok l). split; [reflexivity|]. split; [exact Hl|].
    split; [reflexivity|]. exists l. split; [reflexivity|].
    split; [exact Hl|]. split; [auto | contradiction]. }
  destruct (col_index c) as [j|e]; simpl.
  2: { exists h, (Raise e). split; [reflexivity|]. split; [exact Hl|].
       split; reflexivity. }
  destruct (Nat.eqb_spec (count_empty (column s j)) 0) as [|Hn].
  { exists h, (Raise FullColumnException). split; [reflexivity|].
    split; [exact Hl|]. split; reflexivity. }
  unfold deepcopy. rewrite Hl.
  set (l' := fresh (dom h)).
  assert (Hfresh : h !! l' = None) by (apply not_elem_of_dom, is_fresh).
  assert (Hne : l' <> l) by congruence.
  destruct (name2val g !! n) as [v|].
  - unfold write. rewrite lookup_insert_eq, insert_insert_eq.
    eexists _, _. split; [reflexivity|].
    split; [rewrite lookup_insert_ne by exact Hne; exact Hl|].
    split; [apply insert_subseteq, Hfresh|].
    exists l'. split; [reflexivity|]. split; [apply lookup_insert_eq|].
    split; [contradiction | intros _; exact Hfresh].
  - eexists _, _. split; [reflexivity|].
    split; [rewrite lookup_insert_ne by exact Hne; exact Hl|].
    split; [apply insert_subseteq, Hfresh | reflexivity].
Qed.

Lemma floating_wf : wf_state floating.
Proof. split; [reflexivity | repeat constructor]. Qed.

(** Gravity is what makes the row written the lowest EMPTY one: the row
    is counted from the number of EMPTY cells of the column.  On a 6x7
    array with a hanging piece, which no sequence of drops produces, the
    cell written is another one. *)
Lemma insert_piece_off_gravity :
  ~ (forall (g : game) (player_name : string) (col : Z) (s s' : state),
        wf_state s -> 0 <= col < 7 ->
        insert_piece g player_name col (Some s) = Ok s' ->
        exists r v, lowest_empty s (Z.to_nat col) r
                    /\ s' = set_cell s r (Z.to_nat col) v).
Proof.
  intros H.
  destruct (H g0 "A"%string 0 floating _ floating_wf ltac:(lia) eq_refl)
    as (r & v & (Hr & _ & Hlow) & Heq).
  assert (r = 5%nat) as ->.
  { destruct (decide (r = 5%nat)) as [|Hne]; [assumption|].
    exfalso. apply (Hlow 5%nat); [unfold height in *; simpl in *; lia|].
    reflexivity. }
  apply (f_equal (fun s => cell s 4 0)) in Heq. discriminate Heq.
Qed.

(** C4: for a real column 0..6 of a 6x7 board, [insert_piece] raises
    FullColumnException exactly when the column has no EMPTY cell; on a
    column that obeys gravity, as every column of a board of the game
    does, a successful call returns a board that differs from the input
    in one cell only, the lowest EMPTY row of the column, which holds the
    value of the inserting side; on references, the input array is the
    same before and after the call, with or without an exception, and a
    piece lands in a new array. *)
Theorem insert_piece_spec (g : game) (player_name : string) (col : Z)
    (s : state) :
  wf_state s -> 0 <= col < 7 ->
  let j := Z.to_nat col in
  (insert_piece g player_name col (Some s) = Raise FullColumnException
   <-> forall i, (i < height s)%nat -> cell s i j <> EMPTY)
  /\ (gravity_col (column s j) ->
      forall s', insert_piece g player_name col (Some s) = Ok s' ->
      exists r v,
        name2val g !! player_name = Some v
        /\ lowest_empty s j r
        /\ s' = set_cell s r j v
        /\ wf_state s'
        /\ cell s' r j = v
        /\ forall i' j', ~ (i' = r /\ j' = j) -> cell s' i' j' = cell s i' j')
  /\ (forall (h : store) (l : nat),
      h !! l = Some s ->
      exists h' res,
        insert_piece_obj g player_name col l h = (h', res)
        /\ h' !! l = Some s
        /\ h ⊆ h'
        /\ match insert_piece g player_name col (Some s) with
           | Ok s' => exists l', res = Ok l' /\ h !! l' = None
                                 /\ h' !! l' = Some s'
           | Raise e => res = Raise e
           end).
Proof.
  intros Hwf Hcol j.
  assert (Hj : (j < n_cols)%nat) by (unfold n_cols; lia).
  assert (Hnm : col <> NO_MOVE) by (unfold NO_MOVE; lia).
  assert (Hidx : col_index col = Ok j) by (apply col_index_real, Hcol).
  clearbody j.
  split; [|split].
  - assert (Hfull : count_empty (column s j) = 0%nat <->
                    forall i, (i < height s)%nat -> cell s i j <> EMPTY).
    { pose proof (column_has_empty s j) as Hce. split.
      - intros H0 i Hi Hc. assert (0 < count_empty (column s j))%nat; [|lia].
        apply Hce. eauto.
      - intros Hall. destruct (count_empty (column s j)) eqn:E; [reflexivity|].
        destruct Hce as [Hce _]. destruct Hce as (i & Hi & Hc); [lia|].
        exfalso. exact (Hall i Hi Hc). }
    rewrite <- Hfull. unfold insert_piece. simpl.
    destruct (Z.eqb_spec col NO_MOVE) as [|_]; [contradiction|].
    rewrite Hidx. simpl.
    destruct (Nat.eqb_spec (count_empty (column s j)) 0) as [E|E].
    + tauto.
    + destruct (name2val g !! player_name); split; intros; try discriminate;
        contradiction.
  - intros Hg s' Hins.
    apply insert_piece_inv in Hins
      as [[? _]|(j' & v & _ & Hj' & Hpos & Hv & ->)]; [contradiction|].
    rewrite Hidx in Hj'. injection Hj' as <-.
    set (r := (count_empty (column s j) - 1)%nat) in *.
    assert (Hr : (r < n_rows)%nat).
    { pose proof (count_empty_le (column s j)) as Hle.
      rewrite column_length in Hle. destruct Hwf as [Hlen _]. lia. }
    destruct (gravity_lowest _ Hg Hpos) as [Hlow Hbelow]. fold r in Hlow, Hbelow.
    assert (Hh : height s = n_rows) by (destruct Hwf; assumption).
    exists r, v. split; [exact Hv|]. split; [|split; [reflexivity|split; [|split]]].
    + split; [lia|]. split.
      * rewrite cell_column in Hlow by (unfold height in Hh; lia). congruence.
      * intros i [Hi1 Hi2] Hc.
        apply (Hbelow i (cell s i j) Hi1); [|exact Hc].
        apply cell_column. unfold height in Hi2. exact Hi2.
    + apply set_cell_wf, Hwf.
    + rewrite cell_set_cell by assumption. rewrite decide_True by auto. reflexivity.
    + intros i' j' Hne. rewrite cell_set_cell by assumption.
      rewrite decide_False by exact Hne. reflexivity.
  - intros h l Hl.
    destruct (insert_piece_obj_spec g player_name col l h s Hl)
      as (h' & res & Hrun & Hkeep & Hsub & Hres).
    exists h', res. repeat split; try assumption.
    destruct (insert_piece g player_name col (Some s)) as [s'|e]; [|exact Hres].
    destruct Hres as (l' & -> & Hl' & _ & Hnew).
    exists l'. auto.
Qed.

Lemma insert_piece_spec_witness :
  exists r v,
    name2val g0 !! "B"%string = Some v
    /\ lowest_empty two_lines 2 r
    /\ set_cell two_lines 3 2 (-1) = set_cell two_lines r 2 v.
Proof.
  assert (Hwf : wf_state two_lines) by (split; [reflexivity | repeat constructor]).
  assert (Hg : gravity_col (column two_lines (Z.to_nat 2))).
  { change (gravity_col (replicate 4 EMPTY ++ [-1; 1])).
    apply shape_gravity. repeat constructor; discriminate. }
  destruct (insert_piece_spec g0 "B" 2 two_lines Hwf ltac:(lia)) as (_ & H & _).
  destruct (H Hg (set_cell two_lines 3 2 (-1)) eq_refl)
    as (r & v & Hv & Hlow & Heq & _).
  exists r, v. auto.
Defined.

(** ** The moves [find_move] chooses from *)

Lemma forallb_false_ex {A : Type} (f : A -> bool) (l : list A) :
  forallb f l = false -> exists i x, l !! i = Some x /\ f x = false.
Proof.
  induction l as [|x l IH]; simpl; [discriminate|].
  destruct (f x) eqn:Hx; simpl.
  - intros H. destruct (IH H) as (i & y & Hi & Hy). exists (S i), y. auto.
  - intros _. exists 0%nat, x. auto.
Qed.

Lemma check_winner_none_room g st :
  check_winner g st = None -> all_occupied (resolve g st) = false.
Proof.
  unfold check_winner. simpl.
  destruct (any_eq 4 _); [discriminate|].
  destruct (any_eq (-4) _); [discriminate|].
  destruct (all_occupied _); [discriminate | reflexivity].
Qed.

Lemma check_winner_range g st :
  check_winner g st = None
  \/ check_winner g st = Some Draw
  \/ check_winner g st = Some (Winner (player1 g))
  \/ check_winner g st = Some (Winner (player2 g)).
Proof.
  unfold check_winner. induction winner_positions as [|k ks IH]; simpl; [auto|].
  destruct (any_eq 4 _); [auto|].
  destruct (any_eq (-4) _); [auto|].
  destruct (all_occupied _); [auto | exact IH].
Qed.

(** On a 6x7 board the move generator never answers the empty list. *)
Lemma get_available_moves_nonempty g st :
  wf_state (resolve g st) -> get_available_moves g st <> [].
Proof.
  intros Hwf.
  destruct (check_winner g st) as [w|] eqn:Hw.
  - rewrite available_moves_decided by (rewrite Hw; discriminate). discriminate.
  - pose proof (fun c => available_moves_open g st c Hw) as Hin.
    apply check_winner_none_room in Hw.
    apply forallb_false_ex in Hw as (i & r & Hr & Hrow).
    apply forallb_false_ex in Hrow as (j & v & Hv & Hz).
    apply negb_false_iff, Z.eqb_eq in Hz. subst v.
    destruct Hwf as [Hlen Hrows]. rewrite Forall_lookup in Hrows.
    pose proof (Hrows i r Hr) as Hlr. simpl in Hlr.
    apply lookup_lt_Some in Hv as Hj. rewrite Hlr in Hj. unfold n_cols in Hj.
    assert (Hmem : Z.of_nat j ∈ get_available_moves g st).
    { apply Hin. split; [lia|]. exists i. split.
      - apply lookup_lt_Some in Hr. exact Hr.
      - rewrite Nat2Z.id. unfold cell. rewrite Hr, Hv. reflexivity. }
    intros E. rewrite E in Hmem. inversion Hmem.
Qed.

Lemma index_elem {A : Type} (l : list A) (i : nat) (x : A) :
  index l i = Ok x -> x ∈ l.
Proof.
  unfold index. destruct (l !! i) eqn:E; [|discriminate].
  intros [= <-]. apply list_elem_of_lookup. eauto.
Qed.

Lemma choice_elem {A : Type} (pick : nat) (l : list A) (x : A) :
  choice pick l = Ok x -> x ∈ l.
Proof. unfold choice. destruct l; [discriminate|]. apply index_elem. Qed.

Lemma mask_select_elem {A : Type} (arr sel : list A) (mask : list bool) (x : A) :
  mask_select arr mask = Ok sel -> x ∈ sel -> x ∈ arr.
Proof.
  unfold mask_select. destruct (_ =? _)%nat; [|discriminate].
  intros [= <-] Hx. rewrite map_fmap in Hx.
  apply list_elem_of_fmap in Hx as ([y b] & -> & Hy).
  apply list_elem_of_filter in Hy as [_ Hy].
  apply elem_of_zip_l in Hy. exact Hy.
Qed.

(** C5 on the code: when the game is decided, the move generator answers
    [[NO_MOVE]], a list of length one, and [find_move] returns the
    sentinel; the branch that raises FullBoardException is never taken on
    a 6x7 board. *)
Theorem find_move_decided_returns_no_move (g : game) (a : agent) (s : state)
    (learn : bool) (u : Q) (pick : nat) :
  (check_winner g None <> None ->
   find_move g a s learn u pick = Ok NO_MOVE)
  /\ (wf_state (live g) -> length (get_available_moves g None) <> 0%nat).
Proof.
  split.
  - intros Hw. unfold find_move.
    rewrite (available_moves_decided g None Hw). reflexivity.
  - intros Hwf Hlen. apply (get_available_moves_nonempty g None Hwf).
    destruct (get_available_moves g None); [reflexivity | discriminate].
Qed.

Lemma find_move_decided_returns_no_move_witness :
  find_move (Game "A" "B" vertical_win) (Agent "B" 0 1 (fun _ => 0%Q))
            vertical_win false 0 0 = Ok NO_MOVE.
Proof.
  destruct (find_move_decided_returns_no_move
              (Game "A" "B" vertical_win) (Agent "B" 0 1 (fun _ => 0%Q))
              vertical_win false 0 0) as [H _].
  apply H. discriminate.
Defined.

(** The board of the witness arises in play, and a full board gives the
    same answer. *)
Example find_move_on_finished_games :
  reachable g0 vertical_win
  /\ check_winner g0 (Some vertical_win) = Some (Winner "A"%string)
  /\ get_available_moves g0 (Some vertical_win) = [NO_MOVE]
  /\ find_move (Game "A" "B" full_rows) a0 full_rows false 0 0 = Ok NO_MOVE.
Proof.
  split; [|repeat split].
  apply (reach_insert g0 _ "A"%string 3 _
           (reach_insert g0 _ "B"%string 0 _
           (reach_insert g0 _ "A"%string 3 _
           (reach_insert g0 _ "B"%string 0 _
           (reach_insert g0 _ "A"%string 3 _
           (reach_insert g0 _ "B"%string 0 _
           (reach_insert g0 _ "A"%string 3 _ (reach_zeros g0)
              eq_refl) eq_refl) eq_refl) eq_refl) eq_refl) eq_refl)).
  reflexivity.
Qed.

(** C9: the moves [find_move] chooses from are those of the live board of
    the game, whatever board it is given: every move it returns is one of
    them, the board argument is not consulted when there is at most one
    move or when the random draw asks for exploration, and otherwise it
    counts only through the values [calc_move_values] gives those
    moves. *)
Theorem find_move_uses_live_state (g : game) (a : agent) (s1 s2 : state)
    (learn : bool) (u : Q) (pick : nat) :
  let moves := get_available_moves g None in
  (forall m, find_move g a s1 learn u pick = Ok m -> m ∈ moves)
  /\ (calc_move_values g a s1 moves = calc_move_values g a s2 moves ->
      find_move g a s1 learn u pick = find_move g a s2 learn u pick)
  /\ ((length moves <= 1)%nat
      \/ Qle_bool (if learn then exp_factor a else 0%Q) u = false ->
      find_move g a s1 learn u pick = find_move g a s2 learn u pick).
Proof.
  intros moves. unfold find_move. fold moves.
  split; [|split].
  - intros m.
    destruct (length moves =? 0)%nat; [discriminate|].
    destruct (length moves =? 1)%nat; [apply index_elem|].
    destruct (negb _); [apply choice_elem|].
    destruct (calc_move_values g a s1 moves) as [vs|]; simpl; [|discriminate].
    destruct (np_max vs) as [best|]; simpl; [|discriminate].
    destruct (mask_select moves _) as [sel|] eqn:Hsel; simpl; [|discriminate].
    intros Hm. apply choice_elem in Hm. eapply mask_select_elem; eauto.
  - intros ->. reflexivity.
  - intros Hcase.
    destruct (Nat.eqb_spec (length moves) 0); [reflexivity|].
    destruct (Nat.eqb_spec (length moves) 1); [reflexivity|].
    destruct Hcase as [Hle | ->]; [lia | reflexivity].
Qed.

Lemma find_move_uses_live_state_witness :
  find_move g0 a0 zeros false 0 0 = find_move g0 a0 one_piece false 0 0.
Proof.
  destruct (find_move_uses_live_state g0 a0 zeros one_piece false 0 0)
    as (_ & H & _).
  apply H. vm_compute. reflexivity.
Defined.

(** The live board is empty and the board handed over has a full column
    0: [find_move] still tries column 0, and the drop raises, where the
    random agent would not offer that column. *)
Example find_move_ignores_argument_moves :
  find_move g0 a0 column0_full false 0 0 = Raise FullColumnException
  /\ get_available_moves g0 (Some column0_full) = [1; 2; 3; 4; 5; 6]
  /\ dummy_find_move g0 column0_full 0 = Ok 1.
Proof. vm_compute. auto. Qed.

(** ** Leaf scores *)

Lemma score_leaves_map g a final_states :
  score_leaves g a final_states = map (leaf_value g a) final_states.
Proof.
  induction final_states as [|s l IH]; [reflexivity|].
  unfold score_leaves, calc_state_values in *. simpl. rewrite <- IH.
  unfold leaf_value. destruct (check_winner g (Some s)) as [[|w]|]; reflexivity.
Qed.

(** C6: leaf [i] of the lookahead is scored from the result of
    [check_winner] on it: the estimate of the value model when the result
    is [None], 1/2 for a draw, +1 when the agent itself has won and -1
    when its opponent has won; no other result occurs. *)
Theorem score_leaves_spec (g : game) (a : agent) (final_states : list state)
    (i : nat) (s : state) :
  final_states !! i = Some s ->
  name a = player1 g \/ name a = player2 g ->
  player1 g <> player2 g ->
  exists v,
    score_leaves g a final_states !! i = Some v
    /\ ((check_winner g (Some s) = None /\ v = value_model a s)
        \/ (check_winner g (Some s) = Some Draw /\ v = 1 # 2)
        \/ (check_winner g (Some s) = Some (Winner (name a)) /\ v = 1%Q)
        \/ (check_winner g (Some s)
            = Some (Winner (get_opponent_name g (name a))) /\ v = (-1)%Q)).
Proof.
  intros Hs Hname Hdiff. exists (leaf_value g a s). split.
  - rewrite score_leaves_map, map_fmap, list_lookup_fmap, Hs. reflexivity.
  - unfold leaf_value, calc_reward, get_opponent_name.
    destruct (check_winner_range g (Some s)) as [Hw|[Hw|[Hw|Hw]]]; rewrite Hw.
    + auto.
    + auto.
    + destruct (String.eqb_spec (player1 g) (name a)) as [E|E].
      * rewrite <- E. auto.
      * destruct Hname as [Hn|Hn]; [congruence|].
        right; right; right. rewrite Hn.
        destruct (String.eqb_spec (player2 g) (player1 g)); [congruence|auto].
    + destruct (String.eqb_spec (player2 g) (name a)) as [E|E].
      * rewrite <- E. auto.
      * destruct Hname as [Hn|Hn]; [|congruence].
        right; right; right. rewrite Hn. rewrite String.eqb_refl. auto.
Qed.

Lemma score_leaves_spec_witness :
  exists v,
    score_leaves g0 (Agent "B" 0 1 (fun _ => 0%Q)) [zeros; two_lines] !! 1%nat
    = Some v
    /\ ((check_winner g0 (Some two_lines) = None /\ v = 0%Q)
        \/ (check_winner g0 (Some two_lines) = Some Draw /\ v = 1 # 2)
        \/ (check_winner g0 (Some two_lines) = Some (Winner "B") /\ v = 1%Q)
        \/ (check_winner g0 (Some two_lines) = Some (Winner "A") /\ v = (-1)%Q)).
Proof.
  apply (score_leaves_spec g0 (Agent "B" 0 1 (fun _ => 0%Q))
           [zeros; two_lines] 1 two_lines).
  - reflexivity.
  - right. reflexivity.
  - discriminate.
Defined.

(** ** Tags *)

Lemma prefix_append t x : String.prefix t (String.append t x) = true.
Proof.
  induction t as [|c t IH]; simpl; [destruct x; reflexivity|].
  destruct (ascii_dec c c); [exact IH | contradiction].
Qed.

Lemma prefix_trans t1 t2 t3 :
  String.prefix t1 t2 = true -> String.prefix t2 t3 = true ->
  String.prefix t1 t3 = true.
Proof.
  revert t1 t2. induction t3 as [|c3 t3 IH]; intros [|c1 t1] [|c2 t2]; simpl;
    try reflexivity; try discriminate.
  destruct (ascii_dec c1 c2) as [->|]; [|discriminate].
  destruct (ascii_dec c2 c3) as [->|]; [|discriminate].
  apply IH.
Qed.

(** Two tags that start the same string are comparable. *)
Lemma prefix_common t1 t2 t3 :
  String.prefix t1 t3 = true -> String.prefix t2 t3 = true ->
  String.prefix t1 t2 = true \/ String.prefix t2 t1 = true.
Proof.
  revert t1 t2. induction t3 as [|c3 t3 IH]; intros [|c1 t1] [|c2 t2]; simpl;
    auto; try discriminate.
  destruct (ascii_dec c1 c3) as [->|]; [|discriminate].
  destruct (ascii_dec c2 c3) as [->|]; [|discriminate].
  destruct (ascii_dec c3 c3); [apply IH | contradiction].
Qed.

Lemma prefix_append_same t x y :
  String.prefix (String.append t x) (String.append t y) = String.prefix x y.
Proof.
  induction t as [|c t IH]; simpl; [reflexivity|].
  destruct (ascii_dec c c); [exact IH | contradiction].
Qed.

Lemma prefix_refl t : String.prefix t t = true.
Proof.
  induction t as [|c t IH]; simpl; [reflexivity|].
  destruct (ascii_dec c c); [exact IH | contradiction].
Qed.

Lemma apart_neq t1 t2 : apart t1 t2 -> t1 <> t2.
Proof. intros [H _] ->. rewrite prefix_refl in H. discriminate. Qed.

Lemma apart_sym t1 t2 : apart t1 t2 -> apart t2 t1.
Proof. intros [H1 H2]. split; assumption. Qed.

Lemma apart_extend t1 t2 x y :
  apart t1 t2 -> apart (String.append t1 x) (String.append t2 y).
Proof.
  assert (Hone : forall a b u v, apart a b ->
            String.prefix (String.append a u) (String.append b v) = false).
  { intros a b u v [Hab Hba].
    destruct (String.prefix (String.append a u) (String.append b v)) eqn:E;
      [|reflexivity].
    destruct (prefix_common a b (String.append b v)) as [H|H].
    - eapply prefix_trans; [apply prefix_append | exact E].
    - apply prefix_append.
    - congruence.
    - congruence. }
  intros H. split; apply Hone; [exact H | apply apart_sym, H].
Qed.

Lemma apart_siblings t x y :
  apart x y -> apart (String.append t x) (String.append t y).
Proof. intros [H1 H2]. split; rewrite prefix_append_same; assumption. Qed.

(** The formatted tags of two different columns. *)
Lemma fmt_apart m1 m2 :
  0 <= m1 < 7 -> 0 <= m2 < 7 -> m1 <> m2 -> apart (fmt m1) (fmt m2).
Proof.
  intros H1 H2 Hne.
  assert (E1 : m1 = 0 \/ m1 = 1 \/ m1 = 2 \/ m1 = 3 \/ m1 = 4 \/ m1 = 5 \/ m1 = 6)
    by lia.
  assert (E2 : m2 = 0 \/ m2 = 1 \/ m2 = 2 \/ m2 = 3 \/ m2 = 4 \/ m2 = 5 \/ m2 = 6)
    by lia.
  destruct E1 as [->|[->|[->|[->|[->|[->| ->]]]]]];
    destruct E2 as [->|[->|[->|[->|[->|[->| ->]]]]]];
    try contradiction; split; reflexivity.
Qed.

Lemma all_apart_app l1 l2 :
  all_apart (l1 ++ l2) <->
  all_apart l1 /\ all_apart l2
  /\ forall t1 t2, t1 ∈ l1 -> t2 ∈ l2 -> apart t1 t2.
Proof.
  induction l1 as [|t l1 IH]; simpl.
  - split.
    + intros H. split; [exact I|]. split; [exact H|].
      intros u1 u2 Hin. inversion Hin.
    + intros (_ & H & _). exact H.
  - rewrite Forall_app, IH. split.
    + intros ((Hl1 & Hl2) & Ha1 & Ha2 & Hx).
      split; [split; assumption|]. split; [assumption|].
      intros u1 u2 Hu1 Hu2. apply elem_of_cons in Hu1 as [->|Hu1].
      * rewrite Forall_forall in Hl2. apply Hl2. exact Hu2.
      * apply Hx; assumption.
    + intros ((Hl1 & Ha1) & Ha2 & Hx).
      split; [split; [assumption|]|].
      * apply Forall_forall. intros u2 Hu2. apply Hx; [left | exact Hu2].
      * split; [assumption|]. split; [assumption|].
        intros u1 u2 Hu1 Hu2. apply Hx; [right; exact Hu1 | exact Hu2].
Qed.

Lemma all_apart_NoDup l : all_apart l -> NoDup l.
Proof.
  induction l as [|t l IH]; simpl; [constructor|].
  intros [Ht Hl]. constructor; [|apply IH, Hl].
  intros Hin. rewrite Forall_forall in Ht.
  exact (apart_neq t t (Ht t Hin) eq_refl).
Qed.

(** ** The expansion never raises on legal moves *)

Lemma map_r_ok {A B : Type} (f : A -> result B) (f' : A -> B) (l : list A) :
  (forall x, x ∈ l -> f x = Ok (f' x)) -> map_r f l = Ok (map f' l).
Proof.
  induction l as [|x l IH]; intros H; simpl; [reflexivity|].
  rewrite (H x) by left. simpl.
  rewrite IH by (intros y Hy; apply H; right; exact Hy). reflexivity.
Qed.

Lemma flat_map_r_ok {A B : Type} (f : A -> result (list B))
    (f' : A -> list B) (l : list A) :
  (forall x, x ∈ l -> f x = Ok (f' x)) -> flat_map_r f l = Ok (flat_map f' l).
Proof.
  induction l as [|x l IH]; intros H; simpl; [reflexivity|].
  rewrite (H x) by left. simpl.
  rewrite IH by (intros y Hy; apply H; right; exact Hy). reflexivity.
Qed.

Lemma get_available_moves_NoDup g st : NoDup (get_available_moves g st).
Proof.
  unfold get_available_moves. destruct (check_winner _ _).
  - apply NoDup_singleton.
  - apply NoDup_filter. unfold arange. apply NoDup_seqZ.
Qed.

(** A move offered by the move generator is either the sentinel or a
    column with room. *)
Lemma get_available_moves_elem g s m :
  m ∈ get_available_moves g (Some s) ->
  (m = NO_MOVE /\ get_available_moves g (Some s) = [NO_MOVE])
  \/ (0 <= m < 7 /\ (0 < count_empty (column s (Z.to_nat m)))%nat).
Proof.
  unfold get_available_moves. simpl. destruct (check_winner _ _).
  - intros Hm. apply list_elem_of_singleton in Hm. auto.
  - intros Hm. apply list_elem_of_filter in Hm as [Hc Hm].
    unfold arange in Hm. apply elem_of_seqZ in Hm. unfold n_cols in Hm.
    right. split; [lia | exact Hc].
Qed.

Lemma insert_available g who s m :
  is_Some (name2val g !! who) ->
  m ∈ get_available_moves g (Some s) ->
  insert_piece g who m (Some s) = Ok (child g who s m).
Proof.
  intros [v Hv] Hm.
  assert (Hok : exists s', insert_piece g who m (Some s) = Ok s').
  { apply get_available_moves_elem in Hm as [[-> _]|[Hr Hc]].
    - exists s. reflexivity.
    - unfold insert_piece. simpl.
      destruct (Z.eqb_spec m NO_MOVE) as [E|_]; [unfold NO_MOVE in E; lia|].
      rewrite (col_index_real m Hr). simpl.
      destruct (Nat.eqb_spec (count_empty (column s (Z.to_nat m))) 0); [lia|].
      rewrite Hv. eauto. }
  destruct Hok as [s' Hs']. unfold child. rewrite Hs'. reflexivity.
Qed.

Lemma child_wf g who s m : wf_state s -> wf_state (child g who s m).
Proof.
  intros Hwf. unfold child.
  destruct (insert_piece g who m (Some s)) eqn:E; [|exact Hwf].
  eapply insert_piece_wf; eauto.
Qed.

Lemma expand_ok g who rows :
  rows <> [] -> is_Some (name2val g !! who) ->
  expand g who rows = Ok (next_level g who rows).
Proof.
  intros Hne Hwho. unfold expand, next_level.
  destruct rows as [|r0 rows0]; [contradiction|].
  apply flat_map_r_ok. intros r _. unfold children.
  apply map_r_ok. intros m Hm.
  rewrite (insert_available g who _ m Hwho Hm). reflexivity.
Qed.

Lemma first_moves_ok g a s moves :
  is_Some (name2val g !! name a) ->
  (forall m, m ∈ moves -> m ∈ get_available_moves g (Some s)) ->
  first_moves g a s moves
  = Ok (map (fun m => (""%string, fmt m, child g (name a) s m)) moves).
Proof.
  intros Hwho Hlegal. unfold first_moves. apply map_r_ok. intros m Hm.
  rewrite (insert_available g (name a) s m Hwho (Hlegal m Hm)). reflexivity.
Qed.

(** ** Every level keeps its tags apart *)

Lemma all_apart_map {A : Type} (f : A -> string) (l : list A) :
  NoDup l ->
  (forall x y, x ∈ l -> y ∈ l -> x <> y -> apart (f x) (f y)) ->
  all_apart (map f l).
Proof.
  induction 1 as [|x l Hx Hnd IH]; intros Hap; simpl; [exact I|].
  split.
  - rewrite map_fmap. apply Forall_fmap, Forall_forall. intros y Hy. simpl.
    apply Hap; [left | right; exact Hy | intros ->; contradiction].
  - apply IH. intros y z Hy Hz. apply Hap; right; assumption.
Qed.

Lemma moves_fmt_apart g s m1 m2 :
  m1 ∈ get_available_moves g (Some s) ->
  m2 ∈ get_available_moves g (Some s) ->
  m1 <> m2 ->
  apart (fmt m1) (fmt m2)
  /\ apart (if m1 =? NO_MOVE then ""%string else fmt m1)
           (if m2 =? NO_MOVE then ""%string else fmt m2).
Proof.
  intros H1 H2 Hne.
  destruct (get_available_moves_elem g s m1 H1) as [[-> E1]|[Hr1 _]].
  { rewrite E1 in H2. apply list_elem_of_singleton in H2. congruence. }
  destruct (get_available_moves_elem g s m2 H2) as [[-> E2]|[Hr2 _]].
  { rewrite E2 in H1. apply list_elem_of_singleton in H1. congruence. }
  destruct (Z.eqb_spec m1 NO_MOVE) as [E|_]; [unfold NO_MOVE in E; lia|].
  destruct (Z.eqb_spec m2 NO_MOVE) as [E|_]; [unfold NO_MOVE in E; lia|].
  split; apply fmt_apart; assumption.
Qed.

Lemma children_tags g who r :
  all_apart (map tag_of (children g who r)).
Proof.
  unfold children. rewrite map_map. simpl.
  apply all_apart_map; [apply get_available_moves_NoDup|].
  intros m1 m2 H1 H2 Hne. apply apart_siblings.
  apply (moves_fmt_apart g (state_of r)); assumption.
Qed.

Lemma children_tag_elem g who r t :
  t ∈ map tag_of (children g who r) ->
  exists x, t = String.append (tag_of r) x.
Proof.
  unfold children. rewrite map_map, map_fmap. simpl.
  intros Ht. apply list_elem_of_fmap in Ht as (m & -> & _). eauto.
Qed.

Lemma next_level_tag_elem g who rows t :
  t ∈ map tag_of (next_level g who rows) ->
  exists r x, r ∈ rows /\ t = String.append (tag_of r) x.
Proof.
  unfold next_level. induction rows as [|r rows IH]; simpl.
  - intros Ht. inversion Ht.
  - rewrite map_app. intros Ht. apply elem_of_app in Ht as [Ht|Ht].
    + apply children_tag_elem in Ht as [x ->]. exists r, x. split; [left|reflexivity].
    + destruct (IH Ht) as (r' & x & Hr' & ->). exists r', x.
      split; [right; exact Hr' | reflexivity].
Qed.

Lemma next_level_tags g who rows :
  all_apart (map tag_of rows) -> all_apart (map tag_of (next_level g who rows)).
Proof.
  induction rows as [|r rows IH]; simpl; [auto|].
  intros [Hr Hrows]. unfold next_level. simpl. rewrite map_app.
  apply all_apart_app. split; [apply children_tags|].
  split; [apply IH, Hrows|].
  intros t1 t2 Ht1 Ht2.
  apply children_tag_elem in Ht1 as [x ->].
  apply next_level_tag_elem in Ht2 as (r' & y & Hr' & ->).
  apply apart_extend. rewrite Forall_forall in Hr. apply Hr.
  rewrite map_fmap. apply list_elem_of_fmap. eauto.
Qed.

Lemma children_nonempty g who r :
  wf_state (state_of r) -> children g who r <> [].
Proof.
  intros Hwf. unfold children.
  pose proof (get_available_moves_nonempty g (Some (state_of r)) Hwf) as Hne.
  destruct (get_available_moves g (Some (state_of r))); [contradiction|discriminate].
Qed.

Lemma next_level_wf g who rows :
  Forall (fun r => wf_state (state_of r)) rows ->
  Forall (fun r => wf_state (state_of r)) (next_level g who rows).
Proof.
  unfold next_level. induction 1 as [|r rows Hr _ IH]; simpl; [constructor|].
  apply Forall_app. split; [|exact IH].
  unfold children. rewrite map_fmap. apply Forall_fmap, Forall_forall.
  intros m _. simpl. apply child_wf, Hr.
Qed.

Lemma next_level_ok g who rows :
  level_ok rows -> level_ok (next_level g who rows).
Proof.
  intros (Hne & Hwf & Htags). split; [|split].
  - destruct rows as [|r rows]; [contradiction|].
    apply Forall_cons in Hwf as [Hr _]. unfold next_level. simpl.
    pose proof (children_nonempty g who r Hr) as Hc.
    destruct (children g who r); [contradiction | discriminate].
  - apply next_level_wf, Hwf.
  - apply next_level_tags, Htags.
Qed.

(** ** Grouping a level by the tags of its parents *)

Lemma group_update_fresh uf k v acc :
  k ∉ map fst acc -> group_update uf k v acc = acc ++ [(k, v)].
Proof.
  induction acc as [|[k' v'] acc IH]; simpl; [reflexivity|].
  intros Hk. apply not_elem_of_cons in Hk as [Hne Hk].
  destruct (String.eqb_spec k k'); [contradiction|].
  rewrite IH by exact Hk. reflexivity.
Qed.

Lemma group_update_last uf k v x acc :
  k ∉ map fst acc ->
  group_update uf k v (acc ++ [(k, x)]) = acc ++ [(k, uf x v)].
Proof.
  induction acc as [|[k' v'] acc IH]; simpl.
  - intros _. rewrite String.eqb_refl. reflexivity.
  - intros Hk. apply not_elem_of_cons in Hk as [Hne Hk].
    destruct (String.eqb_spec k k'); [contradiction|].
    rewrite IH by exact Hk. reflexivity.
Qed.

Lemma group_all_same uf k vs x acc :
  k ∉ map fst acc ->
  group_all uf (map (pair k) vs) (acc ++ [(k, x)])
  = acc ++ [(k, fold_left uf vs x)].
Proof.
  intros Hk. revert x. induction vs as [|v vs IH]; intros x; [reflexivity|].
  unfold group_all in *. simpl. rewrite group_update_last by exact Hk.
  apply IH.
Qed.

Lemma group_all_group uf k vs acc :
  k ∉ map fst acc -> vs <> [] ->
  group_all uf (map (pair k) vs) acc = acc ++ [(k, reduce uf vs)].
Proof.
  intros Hk Hvs. destruct vs as [|v vs]; [contradiction|].
  unfold group_all. simpl. rewrite group_update_fresh by exact Hk.
  apply group_all_same, Hk.
Qed.

Lemma group_all_app uf l1 l2 acc :
  group_all uf (l1 ++ l2) acc = group_all uf l2 (group_all uf l1 acc).
Proof. unfold group_all. apply fold_left_app. Qed.

(** Groups that arrive one after the other, under different keys, are
    reduced one by one. *)
Lemma group_all_parents uf (parents : list (string * list Q)) acc :
  NoDup (map fst parents) ->
  (forall p, p ∈ parents -> p.1 ∉ map fst acc) ->
  Forall (fun p => p.2 <> []) parents ->
  group_all uf (flat_map (fun p => map (pair p.1) p.2) parents) acc
  = acc ++ map (fun p => (p.1, reduce uf p.2)) parents.
Proof.
  revert acc. induction parents as [|[k vs] parents IH]; intros acc Hnd Hacc Hne.
  - simpl. rewrite app_nil_r. reflexivity.
  - simpl in *. apply NoDup_cons in Hnd as [Hk Hnd].
    apply Forall_cons in Hne as [Hvs Hne]. simpl in Hvs.
    rewrite group_all_app.
    rewrite group_all_group; [|apply (Hacc (k, vs)); left | exact Hvs].
    rewrite IH; [rewrite <- app_assoc; reflexivity | exact Hnd | | exact Hne].
    intros p Hp. rewrite map_app. simpl. intros Hin.
    apply elem_of_app in Hin as [Hin|Hin].
    + exact (Hacc p (list_elem_of_further _ _ _ Hp) Hin).
    + apply list_elem_of_singleton in Hin. apply Hk. rewrite <- Hin.
      rewrite map_fmap. apply list_elem_of_fmap. eauto.
Qed.

Lemma zip_map_same {A B C : Type} (f : A -> B) (h : A -> C) (l : list A) :
  zip (map f l) (map h l) = map (fun x => (f x, h x)) l.
Proof. induction l as [|x l IH]; simpl; [reflexivity | rewrite IH; reflexivity]. Qed.

Lemma map_flat_map {A B C : Type} (f : B -> C) (h : A -> list B) (l : list A) :
  map f (flat_map h l) = flat_map (fun x => map f (h x)) l.
Proof.
  induction l as [|x l IH]; simpl; [reflexivity|].
  rewrite map_app, IH. reflexivity.
Qed.

(** One reduction step: grouping the values of a level by the parent tags
    gives, parent by parent and in the order of the parents, the
    reduction of the values of its children. *)
Lemma groupby_step g who uf (f : state -> Q) rows :
  level_ok rows ->
  groupby_np (map (fun r => f (state_of r)) (next_level g who rows))
             (map prev_of (next_level g who rows)) uf
  = Ok (map (fun r =>
              reduce uf (map (fun m => f (child g who (state_of r) m))
                             (get_available_moves g (Some (state_of r)))))
            rows).
Proof.
  intros (Hne & Hwf & Htags). unfold groupby_np.
  rewrite !length_map, Nat.eqb_refl. f_equal.
  rewrite zip_map_same. unfold next_level. rewrite map_flat_map.
  set (parent := fun r : node =>
        (tag_of r, map (fun m => f (child g who (state_of r) m))
                       (get_available_moves g (Some (state_of r))))).
  assert (Hshape : flat_map (fun r => map (fun x => (prev_of x, f (state_of x)))
                                          (children g who r)) rows
                   = flat_map (fun p => map (pair p.1) p.2) (map parent rows)).
  { rewrite flat_map_concat_map, flat_map_concat_map, map_map. f_equal.
    apply map_ext. intros r. unfold children, parent. simpl.
    rewrite !map_map. reflexivity. }
  rewrite Hshape, group_all_parents.
  - simpl. rewrite !map_map. reflexivity.
  - rewrite map_map. simpl. apply all_apart_NoDup, Htags.
  - intros p _ Hin. inversion Hin.
  - rewrite map_fmap. apply Forall_fmap, Forall_forall. intros r Hr. simpl.
    rewrite Forall_forall in Hwf.
    pose proof (get_available_moves_nonempty g (Some (state_of r)) (Hwf r Hr)) as Hm.
    destruct (get_available_moves g (Some (state_of r))); [contradiction|discriminate].
Qed.

(** ** The two loops *)

Lemma rbind_ret {A : Type} (m : result A) : (x <-? m; Ok x) = m.
Proof. destruct m; reflexivity. Qed.

Section Loops.

Variables (g : game) (a : agent).

(** The agent plays in the game. *)
Hypothesis Hplayer : name a = player1 g \/ name a = player2 g.

Lemma names_known :
  is_Some (name2val g !! name a)
  /\ is_Some (name2val g !! get_opponent_name g (name a)).
Proof.
  assert (H1 : is_Some (name2val g !! player1 g)).
  { unfold name2val. destruct (decide (player2 g = player1 g)) as [->|Hne].
    - rewrite lookup_insert_eq. eauto.
    - rewrite lookup_insert_ne by exact Hne. rewrite lookup_insert_eq. eauto. }
  assert (H2 : is_Some (name2val g !! player2 g)).
  { unfold name2val. rewrite lookup_insert_eq. eauto. }
  split.
  - destruct Hplayer as [-> | ->]; assumption.
  - unfold get_opponent_name. destruct (String.eqb _ _); assumption.
Qed.

Lemma expand_rounds_ok n :
  forall rows self_move_idx opp_move_idx,
    level_ok rows ->
    expand_rounds g a n rows self_move_idx opp_move_idx
    = Ok (leaves g a n rows,
          self_move_idx ++ self_tags g a n rows,
          opp_move_idx ++ opp_tags g a n rows).
Proof.
  destruct names_known as [Hself Hopp].
  induction n as [|n IH]; intros rows SI OI Hok; simpl.
  - rewrite !app_nil_r. reflexivity.
  - pose proof (next_level_ok g (name a) rows Hok) as Hok1.
    pose proof (next_level_ok g (get_opponent_name g (name a)) _ Hok1) as Hok2.
    rewrite expand_ok; [|apply Hok | exact Hself]. simpl.
    rewrite expand_ok; [|apply Hok1 | exact Hopp]. simpl.
    fold (round g a rows). rewrite IH by exact Hok2.
    rewrite <- !app_assoc. reflexivity.
Qed.

Lemma reduce_rounds_app l1 l2 SI OI v :
  reduce_rounds (l1 ++ l2) SI OI v
  = (v' <-? reduce_rounds l1 SI OI v; reduce_rounds l2 SI OI v').
Proof.
  revert v. induction l1 as [|i l1 IH]; intros v; simpl; [reflexivity|].
  destruct (index SI i) as [ks|]; simpl; [|reflexivity].
  destruct (groupby_np v ks Qmax) as [v1|]; simpl; [|reflexivity].
  destruct (index OI i) as [ko|]; simpl; [|reflexivity].
  destruct (groupby_np v1 ko Qmin) as [v2|]; simpl; [|reflexivity].
  apply IH.
Qed.

Lemma reduction_app fs SI OI l1 l2 :
  reduction g a fs SI OI (l1 ++ l2)
  = (v' <-? reduction g a fs SI OI l1; reduce_rounds l2 SI OI v').
Proof.
  unfold reduction. destruct (index_last OI) as [ko|]; simpl; [|reflexivity].
  destruct (groupby_np _ ko Qmin) as [v|]; simpl; [|reflexivity].
  apply reduce_rounds_app.
Qed.

(** The reduction over the rounds played after a level gives back, on
    that level, the minimax values of its positions, grouped under the
    parents of the level. *)
Lemma reduction_correct n :
  forall rows SI OI ko,
    level_ok rows ->
    length OI = S (length SI) ->
    last OI = Some ko ->
    reduction g a (map state_of (leaves g a n rows))
              (SI ++ self_tags g a n rows) (OI ++ opp_tags g a n rows)
              (rev (seq (length SI) n))
    = groupby_np (map (fun r => minimax_self g a n (state_of r)) rows) ko Qmin.
Proof.
  induction n as [|n IH]; intros rows SI OI ko Hok Hlen Hlast.
  - simpl. rewrite !app_nil_r. unfold reduction, index_last. rewrite Hlast.
    simpl. rewrite score_leaves_map, map_map. apply rbind_ret.
  - pose proof (next_level_ok g (name a) rows Hok) as Hok1.
    pose proof (next_level_ok g (get_opponent_name g (name a)) _ Hok1) as Hok2.
    fold (round g a rows) in Hok2.
    set (k := length SI).
    set (S1 := map prev_of (next_level g (name a) rows)).
    set (O1 := map prev_of (round g a rows)).
    change (leaves g a (S n) rows) with (leaves g a n (round g a rows)).
    change (self_tags g a (S n) rows) with (S1 :: self_tags g a n (round g a rows)).
    change (opp_tags g a (S n) rows) with (O1 :: opp_tags g a n (round g a rows)).
    change (seq k (S n)) with (k :: seq (S k) n).
    change (rev (k :: seq (S k) n)) with (rev (seq (S k) n) ++ [k]).
    rewrite reduction_app.
    replace (SI ++ S1 :: self_tags g a n (round g a rows))
      with ((SI ++ [S1]) ++ self_tags g a n (round g a rows))
      by (rewrite <- app_assoc; reflexivity).
    replace (OI ++ O1 :: opp_tags g a n (round g a rows))
      with ((OI ++ [O1]) ++ opp_tags g a n (round g a rows))
      by (rewrite <- app_assoc; reflexivity).
    assert (HlenS : length (SI ++ [S1]) = S k)
      by (rewrite length_app; simpl; unfold k; lia).
    rewrite <- HlenS.
    rewrite (IH (round g a rows) (SI ++ [S1]) (OI ++ [O1]) O1 Hok2);
      [| rewrite !length_app; simpl; lia | apply last_snoc].
    unfold O1, round in *.
    remember (get_opponent_name g (name a)) as opp eqn:Eopp.
    rewrite (groupby_step g opp Qmin (minimax_self g a n) _ Hok1). simpl.
    assert (HS : index ((SI ++ [S1])
                        ++ self_tags g a n (next_level g opp (next_level g (name a) rows)))
                       k = Ok S1).
    { unfold index. rewrite <- app_assoc. simpl.
      rewrite (list_lookup_middle SI _ S1 k eq_refl). reflexivity. }
    assert (HO : index ((OI ++ [map prev_of (next_level g opp (next_level g (name a) rows))])
                         ++ opp_tags g a n (next_level g opp (next_level g (name a) rows)))
                       k = Ok ko).
    { unfold index. rewrite <- app_assoc.
      rewrite lookup_app_l by lia.
      rewrite last_lookup in Hlast. rewrite Hlen in Hlast. simpl in Hlast.
      fold k in Hlast. rewrite Hlast. reflexivity. }
    rewrite HS. simpl. unfold S1.
    pose proof (groupby_step g (name a) Qmax (minimax_opp g a n) rows Hok)
      as Hstep.
    unfold minimax_opp, list_min in Hstep. rewrite <- Eopp in Hstep.
    rewrite Hstep. simpl. rewrite HO. simpl. rewrite <- Eopp. apply rbind_ret.
Qed.

End Loops.

(** ** The lookahead computes minimax *)

(** [list_min] and [list_max] are the least and the greatest element. *)
Lemma fold_min_spec (r : list Q) (x : Q) :
  fold_left Qmin r x ∈ x :: r
  /\ forall y, y ∈ x :: r -> (fold_left Qmin r x <= y)%Q.
Proof.
  revert x. induction r as [|z r IH]; intros x; simpl.
  - split; [left|]. intros y Hy. apply list_elem_of_singleton in Hy as ->.
    apply Qle_refl.
  - destruct (IH (Qmin x z)) as [Hin Hle]. split.
    + apply elem_of_cons in Hin as [Hin|Hin]; [|right; right; exact Hin].
      rewrite Hin. unfold Qmin, GenericMinMax.gmin.
      destruct (x ?= z)%Q; [left | left | right; left].
    + intros y Hy.
      assert (Hm : (fold_left Qmin r (Qmin x z) <= Qmin x z)%Q)
        by (apply Hle; left).
      apply elem_of_cons in Hy as [->|Hy].
      * eapply Qle_trans; [exact Hm | apply Q.le_min_l].
      * apply elem_of_cons in Hy as [->|Hy].
        -- eapply Qle_trans; [exact Hm | apply Q.le_min_r].
        -- apply Hle. right. exact Hy.
Qed.

Lemma fold_max_spec (r : list Q) (x : Q) :
  fold_left Qmax r x ∈ x :: r
  /\ forall y, y ∈ x :: r -> (y <= fold_left Qmax r x)%Q.
Proof.
  revert x. induction r as [|z r IH]; intros x; simpl.
  - split; [left|]. intros y Hy. apply list_elem_of_singleton in Hy as ->.
    apply Qle_refl.
  - destruct (IH (Qmax x z)) as [Hin Hle]. split.
    + apply elem_of_cons in Hin as [Hin|Hin]; [|right; right; exact Hin].
      rewrite Hin. unfold Qmax, GenericMinMax.gmax.
      destruct (x ?= z)%Q; [left | right; left | left].
    + intros y Hy.
      assert (Hm : (Qmax x z <= fold_left Qmax r (Qmax x z))%Q)
        by (apply Hle; left).
      apply elem_of_cons in Hy as [->|Hy].
      * eapply Qle_trans; [apply Q.le_max_l | exact Hm].
      * apply elem_of_cons in Hy as [->|Hy].
        -- eapply Qle_trans; [apply Q.le_max_r | exact Hm].
        -- apply Hle. right. exact Hy.
Qed.

Lemma list_min_spec (l : list Q) :
  l <> [] -> list_min l ∈ l /\ forall y, y ∈ l -> (list_min l <= y)%Q.
Proof. destruct l as [|x r]; [contradiction|]. intros _. apply fold_min_spec. Qed.

Lemma list_max_spec (l : list Q) :
  l <> [] -> list_max l ∈ l /\ forall y, y ∈ l -> (y <= list_max l)%Q.
Proof. destruct l as [|x r]; [contradiction|]. intros _. apply fold_max_spec. Qed.

Lemma first_level_ok g a s moves :
  wf_state s -> moves <> [] -> NoDup moves ->
  (forall m, m ∈ moves -> m ∈ get_available_moves g (Some s)) ->
  level_ok (map (fun m => (""%string, fmt m, child g (name a) s m)) moves).
Proof.
  intros Hwf Hne Hnd Hlegal. split; [|split].
  - destruct moves; [contradiction | discriminate].
  - rewrite map_fmap. apply Forall_fmap, Forall_forall. intros m _. simpl.
    apply child_wf, Hwf.
  - rewrite map_map. simpl. apply all_apart_map; [exact Hnd|].
    intros m1 m2 H1 H2 Hdiff.
    apply (moves_fmt_apart g s m1 m2); auto.
Qed.

(** A decided position keeps its terminal reward through the rounds: the
    only move offered is the sentinel, which leaves the board as it is. *)
Lemma minimax_decided g a d s :
  check_winner g (Some s) <> None ->
  minimax_self g a d s = leaf_value g a s
  /\ minimax_opp g a d s = leaf_value g a s.
Proof.
  intros Hw.
  assert (Hm : get_available_moves g (Some s) = [NO_MOVE])
    by (apply available_moves_decided, Hw).
  assert (Hc : forall who, child g who s NO_MOVE = s) by reflexivity.
  assert (Hself : minimax_self g a d s = leaf_value g a s).
  { induction d as [|d IH]; [reflexivity|].
    simpl. rewrite Hm. simpl. rewrite !Hc, Hm. simpl. rewrite !Hc. exact IH. }
  split; [exact Hself|].
  unfold minimax_opp. rewrite Hm. simpl. rewrite Hc. exact Hself.
Qed.

(** C1: called with a board, a non-empty list of distinct legal first
    moves and a depth of at least 1, by an agent that plays in the game,
    [calc_move_values] raises nothing and returns one value per move, in
    the order of the moves; the value of a move is the minimum over the
    opponent's replies of the alternating maximum over own moves and
    minimum over replies, [iteration - 1] pairs of plies deep, of the leaf
    scores. *)
Theorem calc_move_values_minimax (g : game) (a : agent) (s : state)
    (moves : list Z) :
  wf_state s ->
  name a = player1 g \/ name a = player2 g ->
  1 <= iteration a ->
  moves <> [] -> NoDup moves ->
  (forall m, m ∈ moves -> m ∈ get_available_moves g (Some s)) ->
  calc_move_values g a s moves = Ok (map (move_value g a s) moves).
Proof.
  intros Hwf Hn _ Hne Hnd Hlegal.
  destruct (names_known g a Hn) as [Hself Hopp].
  pose proof (first_level_ok g a s moves Hwf Hne Hnd Hlegal) as Hok0.
  unfold calc_move_values.
  rewrite (first_moves_ok g a s moves Hself Hlegal). simpl.
  set (rows0 := map (fun m => (""%string, fmt m, child g (name a) s m)) moves) in *.
  set (opp := get_opponent_name g (name a)) in *.
  set (n := Z.to_nat (iteration a - 1)).
  rewrite expand_ok; [|apply Hok0 | exact Hopp]. simpl.
  pose proof (next_level_ok g opp rows0 Hok0) as Hok1.
  rewrite (expand_rounds_ok g a Hn n _ [] _ Hok1). simpl.
  pose proof (reduction_correct g a n (next_level g opp rows0) []
                [map prev_of (next_level g opp rows0)]
                (map prev_of (next_level g opp rows0)) Hok1 eq_refl eq_refl)
    as Hred.
  unfold reduction in Hred. simpl in Hred. unfold range_down.
  rewrite Hred.
  rewrite (groupby_step g opp Qmin (minimax_self g a n) rows0 Hok0).
  unfold rows0. rewrite map_map. reflexivity.
Qed.

Lemma calc_move_values_minimax_witness :
  calc_move_values g0 a0 zeros [0; 1; 2]
  = Ok (map (move_value g0 a0 zeros) [0; 1; 2]).
Proof.
  apply calc_move_values_minimax.
  - apply zeros_wf.
  - left. reflexivity.
  - simpl. lia.
  - discriminate.
  - apply (bool_decide_unpack _). vm_compute. reflexivity.
  - intros m Hm.
    change (get_available_moves g0 (Some zeros)) with [0; 1; 2; 3; 4; 5; 6].
    rewrite !elem_of_cons in Hm. rewrite !elem_of_cons. tauto.
Defined.

(** Depth 1 on a board with a threat: every move that does not block
    column 0 is worth the reward of a lost game, and the values follow
    the order of the moves.  A move given twice yields one value, and an
    empty list of moves raises. *)
Example lookahead_on_threat :
  calc_move_values g0 a0 threat [0; 1; 2; 3; 4; 5; 6]
  = Ok [0; -1; -1; -1; -1; -1; -1]%Q
  /\ calc_move_values g0 a0 threat [3; 0] = Ok [-1; 0]%Q
  /\ calc_move_values g0 a0 threat [3; 3] = Ok [-1]%Q
  /\ calc_move_values g0 a0 threat [] = Raise IndexError.
Proof. vm_compute. auto. Qed.

(** * Further properties of the board, the agents and the game loop *)

(** ** Columns at the edge, unknown players *)

(** X1: a negative column index counts from the right, as numpy does:
    column [c] in -7..-1 is column [c + 7]; any other index outside 0..6,
    the sentinel apart, raises IndexError, whatever the board and the
    player. *)
Theorem insert_piece_column_bounds (g : game) (player_name : string) (c : Z)
    (st : option state) :
  c <> NO_MOVE ->
  (-7 <= c < 0 ->
   insert_piece g player_name c st = insert_piece g player_name (c + 7) st)
  /\ (c < -7 \/ 7 <= c -> insert_piece g player_name c st = Raise IndexError).
Proof.
  intros Hc. unfold insert_piece.
  destruct (Z.eqb_spec c NO_MOVE) as [|_]; [contradiction|]. split.
  - intros Hr.
    destruct (Z.eqb_spec (c + 7) NO_MOVE) as [E|_]; [unfold NO_MOVE in E; lia|].
    rewrite (col_index_real (c + 7)) by lia.
    unfold col_index, n_cols.
    destruct (Z.leb_spec 0 c); [lia|]. simpl.
    destruct (Z.leb_spec (- Z.of_nat 7) c), (Z.ltb_spec c 0); simpl;
      try lia. reflexivity.
  - intros Hr. unfold col_index, n_cols.
    destruct (Z.leb_spec 0 c), (Z.ltb_spec c (Z.of_nat 7)); simpl; try lia;
      destruct (Z.leb_spec (- Z.of_nat 7) c), (Z.ltb_spec c 0); simpl;
      try lia; reflexivity.
Qed.

Lemma insert_piece_column_bounds_witness :
  insert_piece g0 "A" (-1) (Some one_piece)
  = insert_piece g0 "A" 6 (Some one_piece)
  /\ insert_piece g0 "A" 7 (Some one_piece) = Raise IndexError.
Proof.
  split.
  - apply (insert_piece_column_bounds g0 "A" (-1) (Some one_piece));
      [discriminate | lia].
  - apply (insert_piece_column_bounds g0 "A" 7 (Some one_piece));
      [discriminate | lia].
Defined.

Lemma name2val_known g n :
  is_Some (name2val g !! n) <-> n = player1 g \/ n = player2 g.
Proof.
  unfold name2val. split.
  - intros [v Hv].
    apply lookup_insert_Some in Hv as [[<- _]|[_ Hv]]; [auto|].
    apply lookup_insert_Some in Hv as [[<- _]|[_ Hv]]; [auto|].
    rewrite lookup_empty in Hv. discriminate.
  - intros [-> | ->].
    + destruct (decide (player2 g = player1 g)) as [->|Hne].
      * rewrite lookup_insert_eq. eauto.
      * rewrite lookup_insert_ne by exact Hne. rewrite lookup_insert_eq. eauto.
    + rewrite lookup_insert_eq. eauto.
Qed.

(** X2: [insert_piece] raises KeyError exactly when the column is a real
    one with room and the name is of neither player; the sentinel, a bad
    index and a full column are answered before the name is looked up. *)
Theorem insert_piece_unknown_player (g : game) (player_name : string) (c : Z)
    (st : option state) :
  insert_piece g player_name c st = Raise KeyError
  <-> c <> NO_MOVE
      /\ (exists j, col_index c = Ok j
                    /\ (0 < count_empty (column (resolve g st) j))%nat)
      /\ player_name <> player1 g /\ player_name <> player2 g.
Proof.
  unfold insert_piece.
  destruct (Z.eqb_spec c NO_MOVE) as [->|Hc].
  { split; [discriminate | intros [H _]; contradiction]. }
  destruct (col_index c) as [j|e] eqn:Hj; simpl.
  2: { split; [intros [= ->]|intros (_ & (j & [=] & _) & _)].
       unfold col_index in Hj.
       destruct (_ && _); [discriminate|]. destruct (_ && _); discriminate. }
  destruct (Nat.eqb_spec (count_empty (column (resolve g st) j)) 0) as [E|E].
  { split; [discriminate|]. intros (_ & (j' & [= <-] & Hpos) & _). lia. }
  pose proof (name2val_known g player_name) as Hk.
  destruct (name2val g !! player_name) as [v|].
  - split; [discriminate|]. intros (_ & _ & H1 & H2).
    destruct Hk as [Hk _]. destruct Hk as [?|?]; [eauto | contradiction..].
  - split; [|reflexivity]. intros _. split; [exact Hc|].
    split; [exists j; split; [reflexivity | lia]|].
    split; intros ->; destruct Hk as [_ Hk];
      (destruct Hk as [? Hx]; [auto | discriminate Hx]).
Qed.

Lemma insert_piece_unknown_player_witness :
  insert_piece g0 "C" 3 (Some one_piece) = Raise KeyError.
Proof.
  apply (insert_piece_unknown_player g0 "C" 3 (Some one_piece)).
  split; [discriminate|]. split; [|split; discriminate].
  exists 3%nat. split; [reflexivity | vm_compute; lia].
Defined.

(** ** What a drop changes *)

Lemma count_empty_shape k w :
  Forall (fun x => x <> EMPTY) w -> count_empty (replicate k EMPTY ++ w) = k.
Proof.
  intros Hw. induction k as [|k IH]; simpl.
  - induction Hw as [|x w Hx _ IHw]; [reflexivity|].
    rewrite count_empty_cons. destruct (decide (x = EMPTY)); [contradiction|].
    exact IHw.
  - rewrite count_empty_cons. destruct (decide (EMPTY = EMPTY)); [|contradiction].
    rewrite IH. reflexivity.
Qed.

Lemma count_empty_drop v x :
  gravity_col v -> (0 < count_empty v)%nat -> x <> EMPTY ->
  S (count_empty (<[(count_empty v - 1)%nat := x]> v)) = count_empty v.
Proof.
  intros Hg Hpos Hx. destruct (gravity_shape v Hg) as (w & Hv & Hw).
  destruct (count_empty v) as [|k] eqn:Hk; [lia|].
  rewrite Hv, replicate_S_end, <- app_assoc.
  replace (S k - 1)%nat with (length (replicate k EMPTY) + 0)%nat
    by (rewrite length_replicate; lia).
  rewrite insert_app_r. simpl. rewrite count_empty_shape; [reflexivity|].
  constructor; assumption.
Qed.

Lemma sum_list_with_ext (f f' : nat -> nat) (l : list nat) :
  (forall i, i ∈ l -> f' i = f i) -> sum_list_with f' l = sum_list_with f l.
Proof.
  induction l as [|x l IH]; intros H; simpl; [reflexivity|].
  rewrite (H x) by left. rewrite IH; [reflexivity|].
  intros i Hi. apply H. right. exact Hi.
Qed.

Lemma sum_list_with_one_less (f f' : nat -> nat) (j a n : nat) :
  (a <= j < a + n)%nat -> S (f' j) = f j ->
  (forall i, i <> j -> f' i = f i) ->
  S (sum_list_with f' (seq a n)) = sum_list_with f (seq a n).
Proof.
  revert a. induction n as [|n IH]; intros a Hj Hone Hrest; [lia|].
  simpl. destruct (decide (j = a)) as [->|Hne].
  - rewrite <- Hone.
    rewrite (sum_list_with_ext f f'); [reflexivity|].
    intros i Hi. apply Hrest. apply elem_of_seq in Hi. lia.
  - rewrite (Hrest a) by auto. rewrite <- (IH (S a)); [lia | lia | assumption..].
Qed.

(** The board after a successful drop in a real column of a board that
    obeys gravity. *)
Lemma real_drop g n c s s' :
  wf_state s -> gravity s ->
  c <> NO_MOVE -> insert_piece g n c (Some s) = Ok s' ->
  exists j v,
    (j < n_cols)%nat /\ (count_empty (column s j) - 1 < n_rows)%nat
    /\ (0 < count_empty (column s j))%nat
    /\ v <> EMPTY
    /\ cell s (count_empty (column s j) - 1) j = EMPTY
    /\ s' = set_cell s (count_empty (column s j) - 1) j v.
Proof.
  intros Hwf Hg Hc H.
  apply insert_piece_inv in H as [[? _]|(j & v & _ & Hj & Hpos & Hv & ->)];
    [contradiction|].
  apply col_index_range in Hj. exists j, v.
  assert (Hrow : (count_empty (column s j) - 1 < n_rows)%nat).
  { pose proof (count_empty_le (column s j)) as Hle.
    rewrite column_length in Hle. destruct Hwf as [Hlen _]. lia. }
  split; [exact Hj|]. split; [exact Hrow|]. split; [exact Hpos|].
  split; [apply name2val_value in Hv; unfold EMPTY; lia|].
  split; [|reflexivity].
  destruct (gravity_lowest _ (Hg j Hj) Hpos) as [Hlow _].
  rewrite cell_column in Hlow by (destruct Hwf as [-> _]; exact Hrow).
  congruence.
Qed.

(** X3: on a board that obeys gravity a successful drop never touches a
    piece: every cell that held a piece holds the same piece afterwards. *)
Theorem drop_keeps_pieces (g : game) (player_name : string) (col : Z)
    (s s' : state) :
  wf_state s -> gravity s ->
  insert_piece g player_name col (Some s) = Ok s' ->
  forall i j, cell s i j <> EMPTY -> cell s' i j = cell s i j.
Proof.
  intros Hwf Hg H i j Hcell.
  destruct (Z.eq_dec col NO_MOVE) as [->|Hc].
  { injection H as <-. reflexivity. }
  destruct (real_drop g player_name col s s' Hwf Hg Hc H)
    as (j0 & v & Hj & Hrow & _ & _ & Hempty & ->).
  rewrite cell_set_cell by assumption.
  destruct (decide (i = (count_empty (column s j0) - 1)%nat /\ j = j0))
    as [[-> ->]|_]; [contradiction | reflexivity].
Qed.

Lemma drop_keeps_pieces_witness :
  cell (set_cell one_piece 4 3 (-1)) 5 3 = cell one_piece 5 3.
Proof.
  apply (drop_keeps_pieces g0 "B" 3 one_piece).
  - split; [reflexivity | repeat constructor].
  - apply insert_piece_gravity with (g := g0) (n := "A"%string) (c := 3) (s := zeros);
      [apply zeros_wf | apply zeros_gravity | reflexivity].
  - reflexivity.
  - discriminate.
Defined.

(** X4: on a board that obeys gravity a successful drop in a column uses
    up exactly one EMPTY cell of the board. *)
Theorem drop_fills_one_cell (g : game) (player_name : string) (col : Z)
    (s s' : state) :
  wf_state s -> gravity s -> col <> NO_MOVE ->
  insert_piece g player_name col (Some s) = Ok s' ->
  S (total_empty s') = total_empty s.
Proof.
  intros Hwf Hg Hc H.
  destruct (real_drop g player_name col s s' Hwf Hg Hc H)
    as (j & v & Hj & Hrow & Hpos & Hv & _ & ->).
  unfold total_empty.
  apply (sum_list_with_one_less _ _ j); [lia | |].
  - rewrite column_set_cell by assumption. rewrite decide_True by reflexivity.
    apply count_empty_drop; [apply Hg, Hj | exact Hpos | exact Hv].
  - intros i Hi. rewrite column_set_cell by assumption.
    rewrite decide_False by exact Hi. reflexivity.
Qed.

Lemma drop_fills_one_cell_witness :
  S (total_empty one_piece) = total_empty zeros.
Proof.
  apply (drop_fills_one_cell g0 "A" 3 zeros one_piece).
  - apply zeros_wf.
  - apply zeros_gravity.
  - discriminate.
  - reflexivity.
Defined.

(** X5: every move the move generator offers for a board can be played on
    that board by either player without an exception, and on an undecided
    board a real column can be played exactly when it is offered. *)
Theorem offered_moves_can_be_played (g : game) (player_name : string)
    (s : state) :
  player_name = player1 g \/ player_name = player2 g ->
  (forall m, m ∈ get_available_moves g (Some s) ->
             exists s', insert_piece g player_name m (Some s) = Ok s')
  /\ (check_winner g (Some s) = None ->
      forall c, 0 <= c < 7 ->
                (c ∈ get_available_moves g (Some s)
                 <-> exists s', insert_piece g player_name c (Some s) = Ok s')).
Proof.
  intros Hn. apply name2val_known in Hn. split.
  - intros m Hm. rewrite (insert_available g player_name s m Hn Hm). eauto.
  - intros Hw c Hc. split.
    + intros Hm. rewrite (insert_available g player_name s c Hn Hm). eauto.
    + intros [s' Hs'].
      apply insert_piece_inv in Hs' as [[E _]|(j & v & _ & Hj & Hpos & _)].
      { unfold NO_MOVE in E. lia. }
      rewrite (col_index_real c Hc) in Hj. injection Hj as <-.
      unfold get_available_moves. simpl. rewrite Hw.
      apply list_elem_of_filter. split; [exact Hpos|].
      unfold arange. apply elem_of_seqZ. unfold n_cols. lia.
Qed.

Lemma offered_moves_can_be_played_witness :
  exists s', insert_piece g0 "B" 1 (Some column0_full) = Ok s'.
Proof.
  destruct (offered_moves_can_be_played g0 "B" column0_full) as [H _].
  - right. reflexivity.
  - apply H.
    change (get_available_moves g0 (Some column0_full)) with [1; 2; 3; 4; 5; 6].
    left.
Defined.

(** ** Winners and lines of four *)

Lemma cells_ok_cell s i j : cells_ok s -> -1 <= cell s i j <= 1.
Proof.
  intros Hok. unfold cell, cells_ok in *.
  destruct (s !! i) as [r|] eqn:Hr; [|lia].
  destruct (r !! j) as [v|] eqn:Hv; simpl; [|lia].
  rewrite Forall_lookup in Hok. specialize (Hok i r Hr).
  rewrite Forall_lookup in Hok. specialize (Hok j v Hv). lia.
Qed.

Lemma set_cell_cells_ok s i j v :
  cells_ok s -> v = 0 \/ v = 1 \/ v = -1 -> cells_ok (set_cell s i j v).
Proof.
  intros Hok Hv. unfold set_cell, cells_ok in *.
  destruct (s !! i) as [r|] eqn:Hr; [|exact Hok].
  apply Forall_insert; [exact Hok|].
  apply Forall_insert; [|exact Hv].
  rewrite Forall_lookup in Hok. eauto.
Qed.

Lemma insert_piece_cells_ok g n c s s' :
  cells_ok s -> insert_piece g n c (Some s) = Ok s' -> cells_ok s'.
Proof.
  intros Hok H.
  apply insert_piece_inv in H as [[_ ->]|(j & v & _ & _ & _ & Hv & ->)];
    [exact Hok|].
  apply set_cell_cells_ok; [exact Hok|].
  apply name2val_value in Hv. tauto.
Qed.

Lemma zeros_cells_ok : cells_ok zeros.
Proof. repeat constructor. Qed.

(** X6: a board built from the empty board by successful drops holds
    nothing but 0, +1 and -1. *)
Theorem reachable_cells_ok (g : game) (s : state) :
  reachable g s -> cells_ok s.
Proof.
  induction 1 as [|s n c s' _ IH Hins].
  - apply zeros_cells_ok.
  - eapply insert_piece_cells_ok; eauto.
Qed.

Lemma reachable_cells_ok_witness : cells_ok vertical_win.
Proof.
  apply (reachable_cells_ok g0).
  apply (reach_insert g0 _ "A"%string 3 _
           (reach_insert g0 _ "B"%string 0 _
           (reach_insert g0 _ "A"%string 3 _
           (reach_insert g0 _ "B"%string 0 _
           (reach_insert g0 _ "A"%string 3 _
           (reach_insert g0 _ "B"%string 0 _
           (reach_insert g0 _ "A"%string 3 _ (reach_zeros g0)
              eq_refl) eq_refl) eq_refl) eq_refl) eq_refl) eq_refl)).
  reflexivity.
Defined.

Lemma wf_height_width s : wf_state s -> height s = 6%nat /\ width s = 7%nat.
Proof.
  intros [Hlen Hrows]. split; [exact Hlen|]. unfold width.
  destruct s as [|r s]; [discriminate|]. simpl.
  apply Forall_cons in Hrows as [Hr _]. exact Hr.
Qed.

Lemma check_patterns_none g s ks :
  check_patterns g s ks = None <-> Forall (quiet s) ks.
Proof.
  induction ks as [|k ks IH]; simpl.
  - split; [constructor | reflexivity].
  - rewrite Forall_cons, <- IH. unfold quiet, hit.
    destruct (any_eq 4 _); [split; [discriminate | intros [(? & _) _]; discriminate]|].
    destruct (any_eq (-4) _);
      [split; [discriminate | intros [(_ & ? & _) _]; discriminate]|].
    destruct (all_occupied s);
      [split; [discriminate | intros [(_ & _ & ?) _]; discriminate]|].
    tauto.
Qed.

Lemma check_patterns_some g s ks o :
  check_patterns g s ks = Some o ->
  (o = Winner (player1 g) /\ exists k, k ∈ ks /\ hit 4 s k = true)
  \/ (o = Winner (player2 g) /\ exists k, k ∈ ks /\ hit (-4) s k = true)
  \/ (o = Draw /\ all_occupied s = true).
Proof.
  induction ks as [|k ks IH]; simpl; [discriminate|].
  destruct (any_eq 4 _) eqn:H4.
  { intros [= <-]. left. split; [reflexivity|]. exists k. split; [left | exact H4]. }
  destruct (any_eq (-4) _) eqn:Hm4.
  { intros [= <-]. right; left. split; [reflexivity|].
    exists k. split; [left | exact Hm4]. }
  destruct (all_occupied s) eqn:Hocc.
  { intros [= <-]. right; right. auto. }
  intros H. destruct (IH H) as [(-> & k' & Hk' & Hh)|[(-> & k' & Hk' & Hh)|Hd]].
  - left. split; [reflexivity|]. exists k'. split; [right; exact Hk' | exact Hh].
  - right; left. split; [reflexivity|]. exists k'. split; [right; exact Hk' | exact Hh].
  - right; right. exact Hd.
Qed.

(** On a 6x7 board of 0, +1 and -1, some pattern scores [4 * v] exactly
    when the side with value [v] owns a line of four. *)
(** Closes a goal on the four cells of a window from bounds and cell
    values in the context. *)
Ltac four_cells :=
  unfold n_rows, n_cols; simpl;
  repeat (apply Forall_cons; split; [simpl; lia|]); constructor.

Lemma hit_line s v :
  wf_state s -> cells_ok s -> v = 1 \/ v = -1 ->
  (exists k, k ∈ winner_positions /\ hit (4 * v) s k = true) <-> has_line s v.
Proof.
  intros Hwf Hok Hv. destruct (wf_height_width s Hwf) as [Hh Hw].
  pose proof (fun i j => cells_ok_cell s i j Hok) as Hc.
  split.
  - intros (k & Hk & Hhit). apply hit_window in Hhit as (i & j & Hi & Hj & Hsum).
    rewrite Hh, Hw in *. unfold winner_positions in Hk.
    rewrite !elem_of_cons, elem_of_nil in Hk.
    destruct Hk as [->|[->|[->|[->|[]]]]].
    + rewrite conv_vertical in Hsum. exists 0%nat, i, j. split; [lia|].
      unfold height, width in Hi, Hj. simpl in Hi, Hj.
      pose proof (Hc i j). pose proof (Hc (i + 1)%nat j).
      pose proof (Hc (i + 2)%nat j). pose proof (Hc (i + 3)%nat j).
      four_cells.
    + rewrite conv_horizontal in Hsum. exists 1%nat, i, j. split; [lia|].
      unfold height, width in Hi, Hj. simpl in Hi, Hj.
      pose proof (Hc i j). pose proof (Hc i (j + 1)%nat).
      pose proof (Hc i (j + 2)%nat). pose proof (Hc i (j + 3)%nat).
      four_cells.
    + rewrite conv_diag_down_right in Hsum. exists 2%nat, i, j. split; [lia|].
      unfold height, width in Hi, Hj. simpl in Hi, Hj.
      pose proof (Hc i j). pose proof (Hc (i + 1)%nat (j + 1)%nat).
      pose proof (Hc (i + 2)%nat (j + 2)%nat).
      pose proof (Hc (i + 3)%nat (j + 3)%nat).
      four_cells.
    + rewrite conv_diag_down_left in Hsum. exists 3%nat, i, j. split; [lia|].
      unfold height, width in Hi, Hj. simpl in Hi, Hj.
      pose proof (Hc i (j + 3)%nat). pose proof (Hc (i + 1)%nat (j + 2)%nat).
      pose proof (Hc (i + 2)%nat (j + 1)%nat). pose proof (Hc (i + 3)%nat j).
      four_cells.
  - intros (d & i & j & Hd & Hline).
    assert (Ed : (d = 0 \/ d = 1 \/ d = 2 \/ d = 3)%nat) by lia.
    unfold n_rows, n_cols in Hline.
    destruct Ed as [->|[->|[->| ->]]]; simpl in Hline;
      repeat (apply Forall_cons in Hline as [(? & ? & ?) Hline]); simpl in *.
    + exists [[1]; [1]; [1]; [1]]. split; [left|].
      apply hit_window. exists i, j. rewrite Hh, Hw, conv_vertical.
      unfold height, width. simpl. repeat split; lia.
    + exists [[1; 1; 1; 1]]. split; [right; left|].
      apply hit_window. exists i, j. rewrite Hh, Hw, conv_horizontal.
      unfold height, width. simpl. repeat split; lia.
    + eexists. split; [right; right; left|].
      apply hit_window. exists i, j. rewrite Hh, Hw, conv_diag_down_right.
      unfold height, width. simpl. repeat split; lia.
    + eexists. split; [right; right; right; left|].
      apply hit_window. exists i, j. rewrite Hh, Hw, conv_diag_down_left.
      unfold height, width. simpl. repeat split; lia.
Qed.

Lemma hit_false_no_line s v :
  wf_state s -> cells_ok s -> v = 1 \/ v = -1 ->
  (forall k, k ∈ winner_positions -> hit (4 * v) s k = false) <-> ~ has_line s v.
Proof.
  intros Hwf Hok Hv. rewrite <- (hit_line s v Hwf Hok Hv). split.
  - intros Hall (k & Hk & Hh). rewrite (Hall k Hk) in Hh. discriminate.
  - intros Hno k Hk. destruct (hit (4 * v) s k) eqn:E; [|reflexivity].
    exfalso. apply Hno. eauto.
Qed.

(** X7: on a 6x7 board of 0, +1 and -1, [check_winner] answers [None]
    exactly when the board has an EMPTY cell and neither side owns a line
    of four, vertical, horizontal or diagonal. *)
Theorem check_winner_undecided_iff (g : game) (s : state) :
  wf_state s -> cells_ok s ->
  check_winner g (Some s) = None
  <-> all_occupied s = false /\ ~ has_line s 1 /\ ~ has_line s (-1).
Proof.
  intros Hwf Hok. unfold check_winner. simpl resolve.
  rewrite check_patterns_none.
  rewrite <- (hit_false_no_line s 1 Hwf Hok) by auto.
  rewrite <- (hit_false_no_line s (-1) Hwf Hok) by auto.
  rewrite Forall_forall. unfold quiet. simpl. split.
  - intros H. split; [apply (H [[1]; [1]; [1]; [1]]); left|].
    split; intros k Hk; apply (H k Hk).
  - intros (Hocc & H1 & H2) k Hk. auto.
Qed.

Lemma check_winner_undecided_iff_witness :
  check_winner g0 (Some one_piece) = None
  <-> all_occupied one_piece = false
      /\ ~ has_line one_piece 1 /\ ~ has_line one_piece (-1).
Proof.
  apply check_winner_undecided_iff.
  - split; [reflexivity | repeat constructor].
  - unfold cells_ok. apply (bool_decide_unpack _). vm_compute. reflexivity.
Defined.

(** X8: on a 6x7 board of 0, +1 and -1, [check_winner] names a player
    only if that player owns a line of four, and answers draw only if no
    cell is EMPTY. *)
Theorem check_winner_sound (g : game) (s : state) (o : outcome) :
  wf_state s -> cells_ok s ->
  check_winner g (Some s) = Some o ->
  (o = Winner (player1 g) /\ has_line s 1)
  \/ (o = Winner (player2 g) /\ has_line s (-1))
  \/ (o = Draw /\ all_occupied s = true).
Proof.
  intros Hwf Hok H. unfold check_winner in H. simpl resolve in H.
  apply check_patterns_some in H as [(-> & Hk)|[(-> & Hk)|Hd]].
  - left. split; [reflexivity|]. apply (hit_line s 1 Hwf Hok); auto.
  - right; left. split; [reflexivity|]. apply (hit_line s (-1) Hwf Hok); auto.
  - right; right. exact Hd.
Qed.

Lemma check_winner_sound_witness :
  (Winner "A"%string = Winner (player1 g0) /\ has_line vertical_win 1)
  \/ (Winner "A"%string = Winner (player2 g0) /\ has_line vertical_win (-1))
  \/ (Winner "A"%string = Draw /\ all_occupied vertical_win = true).
Proof.
  apply (check_winner_sound g0 vertical_win).
  - split; [reflexivity | repeat constructor].
  - unfold cells_ok. apply (bool_decide_unpack _). vm_compute. reflexivity.
  - reflexivity.
Defined.

(** X9: on a 6x7 board of 0, +1 and -1 that still has an EMPTY cell, a
    side that owns a line of four while the other side owns none is
    declared the winner, and when both own one a winner is declared. *)
Theorem check_winner_complete (g : game) (s : state) :
  wf_state s -> cells_ok s -> all_occupied s = false ->
  (has_line s 1 -> ~ has_line s (-1) ->
   check_winner g (Some s) = Some (Winner (player1 g)))
  /\ (has_line s (-1) -> ~ has_line s 1 ->
      check_winner g (Some s) = Some (Winner (player2 g)))
  /\ (has_line s 1 \/ has_line s (-1) ->
      check_winner g (Some s) = Some (Winner (player1 g))
      \/ check_winner g (Some s) = Some (Winner (player2 g))).
Proof.
  intros Hwf Hok Hocc.
  assert (Hcases : has_line s 1 \/ has_line s (-1) ->
            (check_winner g (Some s) = Some (Winner (player1 g)) /\ has_line s 1)
            \/ (check_winner g (Some s) = Some (Winner (player2 g))
                /\ has_line s (-1))).
  { intros Hline. destruct (check_winner g (Some s)) as [o|] eqn:Hw.
    - unfold check_winner in Hw. simpl resolve in Hw.
      apply check_patterns_some in Hw as [(-> & Hk)|[(-> & Hk)|[_ Hd]]].
      + left. split; [reflexivity|]. apply (hit_line s 1 Hwf Hok); auto.
      + right. split; [reflexivity|]. apply (hit_line s (-1) Hwf Hok); auto.
      + congruence.
    - unfold check_winner in Hw. simpl resolve in Hw.
      apply check_patterns_none in Hw. rewrite Forall_forall in Hw.
      exfalso. destruct Hline as [Hl|Hl].
      + apply (hit_line s 1 Hwf Hok) in Hl as (k & Hk & Hh); [|auto].
        destruct (Hw k Hk) as (H4 & _). change (4 * 1) with 4 in Hh. congruence.
      + apply (hit_line s (-1) Hwf Hok) in Hl as (k & Hk & Hh); [|auto].
        destruct (Hw k Hk) as (_ & Hm4 & _). change (4 * -1) with (-4) in Hh.
        congruence. }
  split; [|split].
  - intros H1 Hno. destruct (Hcases (or_introl H1)) as [[E _]|[_ Hl]];
      [exact E | contradiction].
  - intros H2 Hno. destruct (Hcases (or_intror H2)) as [[_ Hl]|[E _]];
      [contradiction | exact E].
  - intros Hline. destruct (Hcases Hline) as [[E _]|[E _]]; auto.
Qed.

Lemma check_winner_complete_witness :
  check_winner g0 (Some two_lines) = Some (Winner (player1 g0))
  \/ check_winner g0 (Some two_lines) = Some (Winner (player2 g0)).
Proof.
  destruct (check_winner_complete g0 two_lines) as (_ & _ & H).
  - split; [reflexivity | repeat constructor].
  - unfold cells_ok. apply (bool_decide_unpack _). vm_compute. reflexivity.
  - reflexivity.
  - apply H. left. exists 1%nat, 5%nat, 0%nat. split; [lia|].
    unfold n_rows, n_cols. simpl.
    repeat (apply Forall_cons; split; [simpl; repeat split; lia|]).
    constructor.
Defined.

(** ** What the agents return *)

Lemma choice_ok {A : Type} (pick : nat) (l : list A) :
  l <> [] -> exists x, choice pick l = Ok x /\ x ∈ l.
Proof.
  intros Hne. unfold choice, index. destruct l as [|y l]; [contradiction|].
  destruct ((y :: l) !! (pick mod length (y :: l))%nat) as [x|] eqn:E.
  - exists x. split; [reflexivity|]. apply list_elem_of_lookup. eauto.
  - apply lookup_ge_None in E.
    pose proof (Nat.mod_upper_bound pick (length (y :: l))) as Hlt.
    simpl in *. lia.
Qed.

Lemma mask_select_map {A : Type} (f : A -> bool) (arr : list A) :
  mask_select arr (map f arr) = Ok (filter (fun x => f x = true) arr).
Proof.
  unfold mask_select. rewrite length_map, Nat.eqb_refl. f_equal.
  induction arr as [|x arr IH]; [reflexivity|].
  simpl. rewrite !filter_cons. simpl.
  destruct (decide (f x = true)); simpl; rewrite IH; reflexivity.
Qed.

(** The lookahead on legal moves, at any depth setting. *)
Lemma calc_move_values_values g a s moves :
  wf_state s ->
  name a = player1 g \/ name a = player2 g ->
  moves <> [] -> NoDup moves ->
  (forall m, m ∈ moves -> m ∈ get_available_moves g (Some s)) ->
  calc_move_values g a s moves = Ok (map (move_value g a s) moves).
Proof.
  intros Hwf Hn Hne Hnd Hlegal.
  destruct (names_known g a Hn) as [Hself Hopp].
  pose proof (first_level_ok g a s moves Hwf Hne Hnd Hlegal) as Hok0.
  unfold calc_move_values.
  rewrite (first_moves_ok g a s moves Hself Hlegal). simpl.
  rewrite expand_ok; [|apply Hok0 | exact Hopp]. simpl.
  pose proof (next_level_ok g (get_opponent_name g (name a)) _ Hok0) as Hok1.
  rewrite (expand_rounds_ok g a Hn _ _ [] _ Hok1). simpl.
  pose proof (reduction_correct g a (Z.to_nat (iteration a - 1)) _ []
                [map prev_of (next_level g (get_opponent_name g (name a))
                   (map (fun m => (""%string, fmt m, child g (name a) s m)) moves))]
                _ Hok1 eq_refl eq_refl) as Hred.
  unfold reduction in Hred. simpl in Hred. unfold range_down.
  rewrite Hred.
  rewrite (groupby_step g _ Qmin (minimax_self g a _) _ Hok0).
  rewrite map_map. reflexivity.
Qed.

(** With two moves or more and no exploration, [find_move] draws among
    the moves whose value equals the greatest value. *)
Lemma find_move_exploit g a s (learn : bool) u pick :
  wf_state s ->
  name a = player1 g \/ name a = player2 g ->
  (forall m, m ∈ get_available_moves g None ->
             m ∈ get_available_moves g (Some s)) ->
  (2 <= length (get_available_moves g None))%nat ->
  Qle_bool (if learn then exp_factor a else 0%Q) u = true ->
  find_move g a s learn u pick
  = choice pick
      (filter (fun m => Qeq_bool (move_value g a s m)
                          (list_max (map (move_value g a s)
                                         (get_available_moves g None))) = true)
              (get_available_moves g None)).
Proof.
  intros Hwf Hn Hsub Hlen Hu. unfold find_move.
  set (moves := get_available_moves g None) in *.
  destruct (Nat.eqb_spec (length moves) 0); [lia|].
  destruct (Nat.eqb_spec (length moves) 1); [lia|].
  rewrite Hu. simpl.
  rewrite (calc_move_values_values g a s moves Hwf Hn);
    [| destruct moves; [simpl in Hlen; lia | discriminate]
     | apply get_available_moves_NoDup | exact Hsub ].
  simpl. unfold np_max, list_max, reduce.
  destruct (map (move_value g a s) moves) as [|x r] eqn:E.
  { destruct moves; [simpl in Hlen; lia | discriminate]. }
  cbn [rbind]. rewrite <- E, map_map.
  rewrite (mask_select_map
             (fun m => Qeq_bool (move_value g a s m) (fold_left Qmax r x)) moves).
  reflexivity.
Qed.

(** Under the conditions of the game loop [find_move] returns one of the
    moves of the live board. *)
Lemma find_move_total g a s (learn : bool) u pick :
  wf_state (live g) -> wf_state s ->
  name a = player1 g \/ name a = player2 g ->
  (forall m, m ∈ get_available_moves g None ->
             m ∈ get_available_moves g (Some s)) ->
  exists m, find_move g a s learn u pick = Ok m /\ m ∈ get_available_moves g None.
Proof.
  intros Hlive Hwf Hn Hsub.
  pose proof (get_available_moves_nonempty g None Hlive) as Hne.
  destruct (Qle_bool (if learn then exp_factor a else 0%Q) u) eqn:Hu;
    [destruct (decide (2 <= length (get_available_moves g None))%nat) as [H2|H1]|].
  - rewrite (find_move_exploit g a s learn u pick Hwf Hn Hsub H2 Hu).
    set (moves := get_available_moves g None) in *.
    set (best := list_max (map (move_value g a s) moves)).
    assert (Hsel : filter (fun m => Qeq_bool (move_value g a s m) best = true) moves
                   <> []).
    { destruct (list_max_spec (map (move_value g a s) moves)) as [Hin _].
      { destruct moves; [contradiction | discriminate]. }
      fold best in Hin. rewrite map_fmap in Hin.
      apply list_elem_of_fmap in Hin as (m0 & Hbest & Hm0).
      intros E.
      assert (Hm : m0 ∈ filter (fun m => Qeq_bool (move_value g a s m) best = true)
                               moves).
      { apply list_elem_of_filter. split; [|exact Hm0].
        rewrite <- Hbest. apply Qeq_bool_iff, Qeq_refl. }
      rewrite E in Hm. inversion Hm. }
    destruct (choice_ok pick _ Hsel) as (m & Hm & Hin).
    exists m. split; [exact Hm|]. apply list_elem_of_filter in Hin. tauto.
  - unfold find_move.
    destruct (get_available_moves g None) as [|m0 [|m1 r]] eqn:E;
      [contradiction | | simpl in H1; lia].
    exists m0. split; [reflexivity | left].
  - unfold find_move. rewrite Hu. simpl.
    destruct (choice_ok pick _ Hne) as (m & Hm & Hin).
    destruct (Nat.eqb_spec (length (get_available_moves g None)) 0) as [E0|_].
    { destruct (get_available_moves g None); [contradiction | discriminate]. }
    destruct (Nat.eqb_spec (length (get_available_moves g None)) 1) as [E1|_].
    + destruct (get_available_moves g None) as [|m0 [|m1 r]];
        [contradiction | | discriminate].
      exists m0. split; [reflexivity | left].
    + exists m. auto.
Qed.

(** X10: when [find_move] does not explore, the board handed over offers
    at least the moves of the live board and the agent plays in the game,
    it raises nothing and returns a move of the live board whose minimax
    value is the greatest among those moves. *)
Theorem find_move_greedy (g : game) (a : agent) (s : state) (learn : bool)
    (u : Q) (pick : nat) :
  wf_state (live g) -> wf_state s ->
  name a = player1 g \/ name a = player2 g ->
  (forall m, m ∈ get_available_moves g None ->
             m ∈ get_available_moves g (Some s)) ->
  Qle_bool (if learn then exp_factor a else 0%Q) u = true ->
  exists m,
    find_move g a s learn u pick = Ok m
    /\ m ∈ get_available_moves g None
    /\ forall m', m' ∈ get_available_moves g None ->
                  (move_value g a s m' <= move_value g a s m)%Q.
Proof.
  intros Hlive Hwf Hn Hsub Hu.
  destruct (find_move_total g a s learn u pick Hlive Hwf Hn Hsub)
    as (m & Hm & Hin).
  exists m. split; [exact Hm|]. split; [exact Hin|].
  destruct (decide (2 <= length (get_available_moves g None))%nat) as [H2|H1].
  - rewrite (find_move_exploit g a s learn u pick Hwf Hn Hsub H2 Hu) in Hm.
    apply choice_elem, list_elem_of_filter in Hm as [Hbest _].
    apply Qeq_bool_iff in Hbest. intros m' Hm'. rewrite Hbest.
    apply list_max_spec.
    + destruct (get_available_moves g None); [inversion Hin | discriminate].
    + rewrite map_fmap. apply list_elem_of_fmap. eauto.
  - intros m' Hm'.
    destruct (get_available_moves g None) as [|m0 [|m1 r]];
      [inversion Hin | | simpl in H1; lia].
    apply list_elem_of_singleton in Hin, Hm'. subst. apply Qle_refl.
Qed.

Lemma find_move_greedy_witness :
  exists m,
    find_move (Game "A" "B" threat) a0 threat false 0 5 = Ok m
    /\ m ∈ get_available_moves (Game "A" "B" threat) None
    /\ forall m', m' ∈ get_available_moves (Game "A" "B" threat) None ->
                  (move_value (Game "A" "B" threat) a0 threat m'
                   <= move_value (Game "A" "B" threat) a0 threat m)%Q.
Proof.
  assert (Hwf : wf_state threat) by (split; [reflexivity | repeat constructor]).
  apply find_move_greedy.
  - exact Hwf.
  - exact Hwf.
  - left. reflexivity.
  - intros m Hm. exact Hm.
  - reflexivity.
Defined.

(** X11: on a 6x7 board the random agent raises nothing and returns one
    of the moves offered for the board it is given, the sentinel when the
    game is decided. *)
Theorem dummy_find_move_total (g : game) (s : state) (pick : nat) :
  wf_state s ->
  exists m,
    dummy_find_move g s pick = Ok m
    /\ m ∈ get_available_moves g (Some s)
    /\ (check_winner g (Some s) <> None -> m = NO_MOVE).
Proof.
  intros Hwf. unfold dummy_find_move.
  destruct (choice_ok pick _ (get_available_moves_nonempty g (Some s) Hwf))
    as (m & Hm & Hin).
  exists m. split; [exact Hm|]. split; [exact Hin|].
  intros Hw. rewrite (available_moves_decided g (Some s) Hw) in Hin.
  apply list_elem_of_singleton in Hin. exact Hin.
Qed.

Lemma dummy_find_move_total_witness :
  exists m,
    dummy_find_move g0 vertical_win 4 = Ok m
    /\ m ∈ get_available_moves g0 (Some vertical_win)
    /\ (check_winner g0 (Some vertical_win) <> None -> m = NO_MOVE).
Proof.
  apply dummy_find_move_total. split; [reflexivity | repeat constructor].
Defined.

(** X12: a depth setting of 1 or less, zero and negative numbers
    included, gives the lookahead of depth 1. *)
Theorem calc_move_values_shallow (g : game) (a : agent) (s : state)
    (moves : list Z) :
  iteration a <= 1 ->
  calc_move_values g a s moves
  = calc_move_values g (Agent (name a) (exp_factor a) 1 (value_model a)) s moves.
Proof.
  intros Hd. destruct a as [n e d vm]. simpl in *.
  unfold calc_move_values. simpl.
  replace (Z.to_nat (d - 1)) with 0%nat by lia.
  reflexivity.
Qed.

Lemma calc_move_values_shallow_witness :
  calc_move_values g0 (Agent "A" 0 (-3) (fun _ => 0%Q)) threat [3; 0]
  = calc_move_values g0 (Agent "A" 0 1 (fun _ => 0%Q)) threat [3; 0].
Proof.
  apply (calc_move_values_shallow g0 (Agent "A" 0 (-3) (fun _ => 0%Q))).
  simpl. lia.
Defined.

Lemma map_r_raise {A B : Type} (f : A -> result B) (e : exn) (l : list A) :
  (forall x, x ∈ l -> (exists y, f x = Ok y) \/ f x = Raise e) ->
  (exists x, x ∈ l /\ f x = Raise e) ->
  map_r f l = Raise e.
Proof.
  induction l as [|x l IH]; intros Hall (x0 & Hx0 & Hf).
  - inversion Hx0.
  - simpl. destruct (Hall x) as [[y Hy]|Hr]; [left | | rewrite Hr; reflexivity].
    rewrite Hy. simpl.
    apply elem_of_cons in Hx0 as [->|Hx0]; [congruence|].
    rewrite IH; [reflexivity | | eauto].
    intros z Hz. apply Hall. right. exact Hz.
Qed.

(** X13: when the moves handed over are real columns and one of them is
    full on the board handed over, the lookahead of an agent that plays
    in the game raises FullColumnException. *)
Theorem calc_move_values_full_column (g : game) (a : agent) (s : state)
    (moves : list Z) :
  name a = player1 g \/ name a = player2 g ->
  (forall m, m ∈ moves -> 0 <= m < 7) ->
  (exists m, m ∈ moves /\ count_empty (column s (Z.to_nat m)) = 0%nat) ->
  calc_move_values g a s moves = Raise FullColumnException.
Proof.
  intros Hn Hreal (m0 & Hm0 & Hfull).
  destruct (names_known g a Hn) as [[v Hv] _].
  assert (Hins : forall m, 0 <= m < 7 ->
            insert_piece g (name a) m (Some s)
            = if (count_empty (column s (Z.to_nat m)) =? 0)%nat
              then Raise FullColumnException
              else Ok (set_cell s (count_empty (column s (Z.to_nat m)) - 1)
                                (Z.to_nat m) v)).
  { intros m Hm. unfold insert_piece. simpl.
    destruct (Z.eqb_spec m NO_MOVE) as [E|_]; [unfold NO_MOVE in E; lia|].
    rewrite (col_index_real m Hm). simpl. rewrite Hv. reflexivity. }
  unfold calc_move_values, first_moves.
  rewrite (map_r_raise _ FullColumnException); [reflexivity | |].
  - intros m Hm. rewrite (Hins m (Hreal m Hm)).
    destruct (_ =? _)%nat; simpl; eauto.
  - exists m0. split; [exact Hm0|]. rewrite (Hins m0 (Hreal m0 Hm0)), Hfull.
    reflexivity.
Qed.

Lemma calc_move_values_full_column_witness :
  calc_move_values g0 a0 column0_full [1; 0; 2] = Raise FullColumnException.
Proof.
  apply calc_move_values_full_column.
  - left. reflexivity.
  - intros m Hm. rewrite !elem_of_cons, elem_of_nil in Hm. lia.
  - exists 0. split; [right; left | reflexivity].
Defined.

(** X14: the human player's loop returns the first line typed that is an
    integer offered as a move for the board handed over; lines that are
    no integer or no offered move are passed over. *)
Theorem read_move_first_valid (available_moves : list Z)
    (lines : list (option Z)) (m : Z) :
  read_move available_moves lines = Some m
  <-> exists before after,
        lines = before ++ Some m :: after
        /\ m ∈ available_moves
        /\ Forall (fun x => forall z, x = Some z -> z ∉ available_moves) before.
Proof.
  split.
  - induction lines as [|[z|] lines IH]; simpl; [discriminate| |].
    + destruct (bool_decide_reflect (z ∈ available_moves)) as [Hin|Hnot].
      * intros [= <-]. exists [], lines. repeat split; [exact Hin | constructor].
      * intros H. destruct (IH H) as (pre & post & -> & Hm & Hpre).
        exists (Some z :: pre), post. repeat split; [exact Hm|].
        constructor; [|exact Hpre]. intros z' [= <-]. exact Hnot.
    + intros H. destruct (IH H) as (pre & post & -> & Hm & Hpre).
      exists (None :: pre), post. repeat split; [exact Hm|].
      constructor; [|exact Hpre]. discriminate.
  - intros (pre & post & -> & Hm & Hpre).
    induction Hpre as [|[z|] pre Hx _ IH]; simpl.
    + rewrite bool_decide_eq_true_2 by exact Hm. reflexivity.
    + rewrite bool_decide_eq_false_2 by (apply Hx; reflexivity). exact IH.
    + exact IH.
Qed.

Lemma read_move_first_valid_witness :
  read_move [1; 2; 3; 4; 5; 6] [None; Some 0; Some 9; Some 4; Some 1] = Some 4.
Proof.
  apply read_move_first_valid.
  exists [None; Some 0; Some 9], [Some 1]. split; [reflexivity|].
  split; [rewrite !elem_of_cons; tauto|].
  repeat (apply Forall_cons; split;
          [intros z [= <-]; rewrite !elem_of_cons, elem_of_nil; lia
          || discriminate|]).
  constructor.
Defined.

(** ** The game loop *)

Lemma read_move_elem available_moves lines m :
  read_move available_moves lines = Some m -> m ∈ available_moves.
Proof.
  induction lines as [|[z|] lines IH]; simpl; [discriminate| |exact IH].
  destruct (bool_decide_reflect (z ∈ available_moves)) as [Hin|_];
    [intros [= <-]; exact Hin | exact IH].
Qed.

(** Whoever is to move on the live board answers with a move offered for
    it, unless a human leaves the program waiting. *)
Lemma player_find_move_legal g p (learn : bool) d :
  wf_state (live g) ->
  player_name p = player1 g \/ player_name p = player2 g ->
  match player_find_move g p (live g) learn d with
  | Done m => m ∈ get_available_moves g None
  | NoInput => is_human p = true
  | _ => False
  end.
Proof.
  intros Hwf Hn. destruct p as [n|n|a]; simpl in *.
  - unfold human_find_move.
    destruct (read_move _ _) as [m|] eqn:E; [|reflexivity].
    apply read_move_elem in E. exact E.
  - unfold dummy_find_move.
    destruct (choice_ok (pick_draw d) _
                (get_available_moves_nonempty g (Some (live g)) Hwf))
      as (m & Hm & Hin).
    rewrite Hm. exact Hin.
  - destruct (find_move_total g a (live g) learn (unit_draw d) (pick_draw d)
                Hwf Hwf Hn (fun m H => H)) as (m & Hm & Hin).
    rewrite Hm. exact Hin.
Qed.

Lemma undecided_has_room g s :
  wf_state s -> check_winner g (Some s) = None -> (1 <= total_empty s)%nat.
Proof.
  intros Hwf Hw. apply check_winner_none_room in Hw. simpl in Hw.
  apply forallb_false_ex in Hw as (i & r & Hr & Hrow).
  apply forallb_false_ex in Hrow as (j & v & Hv & Hz).
  apply negb_false_iff, Z.eqb_eq in Hz. subst v.
  destruct Hwf as [Hlen Hrows]. rewrite Forall_lookup in Hrows.
  pose proof (Hrows i r Hr) as Hlr. simpl in Hlr.
  apply lookup_lt_Some in Hv as Hj. rewrite Hlr in Hj.
  assert (Hpos : (0 < count_empty (column s j))%nat).
  { apply count_empty_pos. exists i. rewrite column_lookup, Hr. simpl.
    rewrite Hv. reflexivity. }
  unfold total_empty.
  pose proof (sum_list_with_in j (fun j => count_empty (column s j))
                (seq 0 n_cols)) as Hsum.
  assert (Hin : j ∈ seq 0 n_cols) by (apply elem_of_seq; lia).
  specialize (Hsum Hin). cbv beta in Hsum. lia.
Qed.

Lemma history_step_board p1 p2 b b' e1 e2 :
  history_step (Game p1 p2 b) e1 e2 -> history_step (Game p1 p2 b') e1 e2.
Proof. intros H. exact H. Qed.

Lemma history_chain_board p1 p2 b b' l :
  history_chain (Game p1 p2 b) l -> history_chain (Game p1 p2 b') l.
Proof.
  induction l as [|e1 [|e2 l] IH]; simpl; [auto | auto |].
  intros [Hs Hc]. split; [exact (history_step_board p1 p2 b b' e1 e2 Hs)|].
  apply IH, Hc.
Qed.

Lemma history_chain_snoc g l e1 e2 :
  history_chain g (l ++ [e1]) -> history_step g e1 e2 ->
  history_chain g ((l ++ [e1]) ++ [e2]).
Proof.
  intros Hc Hs. induction l as [|x l IH].
  - simpl. auto.
  - destruct l as [|y l]; simpl in *.
    + destruct Hc as [Hxy _]. auto.
    + destruct Hc as [Hxy Hc]. split; [exact Hxy | apply IH, Hc].
Qed.

(** One pass through [play_move] on an undecided board. *)
Lemma play_move_step v (learn : bool) d :
  loop_inv v -> check_winner (game_of v) None = None ->
  match play_move v learn d with
  | Done (v1, s') =>
      first_player v1 = first_player v
      /\ second_player v1 = second_player v
      /\ game_history v1 = full_history v
      /\ (turn_player v1 = first_player v \/ turn_player v1 = second_player v)
      /\ history_step (game_of v) (player_name (turn_player v), board v)
                      (player_name (turn_player v1), s')
      /\ wf_state s' /\ gravity s'
      /\ S (total_empty s') = total_empty (board v)
      /\ cells_ok s'
  | NoInput =>
      is_human (first_player v) = true \/ is_human (second_player v) = true
  | _ => False
  end.
Proof.
  intros (Hwf & Hg & Hturn & _ & _ & _ & Hcells) Hw. unfold play_move.
  cbn [first_player second_player board winner turn_player game_history].
  change (game_of (Vier (first_player v) (second_player v) (board v) (winner v)
                        (turn_player v)
                        (game_history v ++ [(player_name (turn_player v), board v)])))
    with (game_of v).
  assert (Hname : player_name (turn_player v) = player1 (game_of v)
                  \/ player_name (turn_player v) = player2 (game_of v)).
  { simpl. destruct Hturn as [-> | ->]; auto. }
  pose proof (player_find_move_legal (game_of v) (turn_player v) learn d Hwf Hname)
    as Hfind.
  change (live (game_of v)) with (board v) in Hfind.
  destruct (player_find_move (game_of v) (turn_player v) (board v) learn d)
    as [move| | |]; try contradiction.
  2: { destruct Hturn as [E|E]; rewrite E in Hfind; auto. }
  change (get_available_moves (game_of v) None)
    with (get_available_moves (game_of v) (Some (board v))) in Hfind.
  change (insert_piece (game_of v) (player_name (turn_player v)) move None)
    with (insert_piece (game_of v) (player_name (turn_player v)) move
            (Some (board v))).
  pose proof (insert_available (game_of v) (player_name (turn_player v))
                (board v) move (proj2 (name2val_known _ _) Hname) Hfind) as Hins.
  rewrite Hins.
  assert (Hreal : 0 <= move < 7).
  { apply (available_moves_open (game_of v) (Some (board v)) move Hw) in Hfind.
    tauto. }
  assert (Hnm : move <> NO_MOVE) by (unfold NO_MOVE; lia).
  set (s' := child (game_of v) (player_name (turn_player v)) (board v) move) in *.
  cbn [next_player first_player second_player board winner turn_player
       game_history fst snd].
  split; [reflexivity|]. split; [reflexivity|]. split; [reflexivity|].
  split; [destruct (String.eqb _ _); auto|].
  split; [|split; [|split; [|split]]].
  5: { eapply insert_piece_cells_ok; eauto. }
  - split; [exact Hw|]. split; [|exists move; split; [exact Hreal | exact Hins]].
    simpl. unfold get_opponent_name. simpl.
    destruct (String.eqb _ _); reflexivity.
  - eapply insert_piece_wf; eauto.
  - eapply insert_piece_gravity; eauto.
  - destruct (real_drop _ _ _ _ _ Hwf Hg Hnm Hins)
      as (j & x & Hj & Hrow & Hpos & Hx & _ & Hs').
    rewrite Hs'. unfold total_empty.
    apply (sum_list_with_one_less _ _ j); [lia | |].
    + rewrite column_set_cell by assumption. rewrite decide_True by reflexivity.
      apply count_empty_drop; [apply Hg, Hj | exact Hpos | exact Hx].
    + intros i Hi. rewrite column_set_cell by assumption.
      rewrite decide_False by exact Hi. reflexivity.
Qed.

(** The loop, from any state the invariant describes. *)
Lemma play_loop_inv fuel (learn : bool) draws :
  forall n v,
    loop_inv v -> check_winner (game_of v) None = None ->
    (total_empty (board v) <= fuel)%nat ->
    match play_loop fuel learn draws n v with
    | Done v' =>
        loop_inv v'
        /\ first_player v' = first_player v
        /\ second_player v' = second_player v
        /\ winner v' = check_winner (game_of v') None
        /\ winner v' <> None
    | NoInput =>
        is_human (first_player v) = true \/ is_human (second_player v) = true
    | _ => False
    end.
Proof.
  induction fuel as [|fuel IH]; intros n v Hinv Hw Hfuel.
  - destruct Hinv as (Hwf & _).
    pose proof (undecided_has_room (game_of v) (board v) Hwf Hw). lia.
  - simpl. pose proof (play_move_step v learn (draws n) Hinv Hw) as Hstep.
    destruct (play_move v learn (draws n)) as [[v1 s']| | |]; try contradiction;
      [|exact Hstep].
    destruct Hstep
      as (Hp1 & Hp2 & Hhist & Hturn & Hhs & Hwf' & Hg' & Hcount & Hcells').
    destruct Hinv as (Hwf & Hg & _ & Hchain & Hhead & Hlen & _).
    cbn [first_player second_player board winner turn_player game_history].
    remember (check_winner
                (game_of (Vier (first_player v1) (second_player v1) s'
                               (winner v1) (turn_player v1) (game_history v1)))
                None) as w eqn:Hw3.
    set (v3 := Vier (first_player v1) (second_player v1) s' w
                    (turn_player v1) (game_history v1)).
    change (w = check_winner (game_of v3) None) in Hw3.
    assert (Hinv3 : loop_inv v3).
    { unfold loop_inv, full_history, v3.
      cbn [first_player second_player board winner turn_player game_history].
      rewrite Hp1, Hp2, Hhist. unfold full_history.
      split; [exact Hwf'|]. split; [exact Hg'|]. split; [exact Hturn|].
      split; [|split; [|split; [|exact Hcells']]].
      - apply (history_chain_board _ _ (board v)).
        apply history_chain_snoc; [exact Hchain | exact Hhs].
      - unfold full_history in Hhead.
        destruct (game_history v); simpl in *; exact Hhead.
      - unfold full_history in Hlen. rewrite !length_app in *.
        cbn [length] in *. lia. }
    destruct w as [o|].
    + split; [exact Hinv3|]. split; [exact Hp1|]. split; [exact Hp2|].
      split; [exact Hw3 | discriminate].
    + specialize (IH (S n) v3 Hinv3 (eq_sym Hw3)).
      assert (Hf : (total_empty (board v3) <= fuel)%nat) by (simpl; lia).
      specialize (IH Hf).
      destruct (play_loop fuel learn draws (S n) v3) as [v'| | |];
        try contradiction.
      * destruct IH as (Hi & Hq1 & Hq2 & Hq3 & Hq4).
        split; [exact Hi|]. split; [rewrite Hq1; exact Hp1|].
        split; [rewrite Hq2; exact Hp2|]. auto.
      * simpl in IH. rewrite Hp1, Hp2 in IH. exact IH.
Qed.

Lemma init_game_inv v :
  loop_inv (init_game v) /\ check_winner (game_of (init_game v)) None = None
  /\ total_empty (board (init_game v)) = 42%nat.
Proof.
  split; [|split; reflexivity].
  unfold loop_inv, init_game, full_history. simpl.
  split; [apply zeros_wf|]. split; [apply zeros_gravity|].
  split; [auto|]. split; [exact I|]. split; [reflexivity|].
  split; [reflexivity | apply zeros_cells_ok].
Qed.

(** X15: a game always ends.  Given 42 steps or more, the loop of
    [play_game] and of [play_games_for_learning] raises nothing and stops
    with a decided game on a 6x7 board that obeys gravity, whatever the
    players, the value models and the random draws; the only other way
    out is a human player who stops typing.  [play_game] returns the
    winner [check_winner] reports for the final board. *)
Theorem play_game_terminates (fuel : nat) (learn : bool) (draws : nat -> draw)
    (v : vier) :
  (42 <= fuel)%nat ->
  match play_episode fuel learn draws v with
  | Done v' =>
      winner v' <> None
      /\ winner v' = check_winner (game_of v') None
      /\ wf_state (board v') /\ gravity (board v')
      /\ (learn = false -> play_game fuel draws v = Done (v', winner v'))
  | NoInput =>
      is_human (first_player v) = true \/ is_human (second_player v) = true
  | Failed _ => False
  | NoFuel => False
  end.
Proof.
  intros Hfuel. unfold play_game, play_episode.
  destruct (init_game_inv v) as (Hinv & Hw & Hcount).
  pose proof (play_loop_inv fuel learn draws 0 (init_game v) Hinv Hw) as Hloop.
  rewrite Hcount in Hloop. specialize (Hloop Hfuel).
  destruct (play_loop fuel learn draws 0 (init_game v)) as [v'| | |] eqn:E;
    try contradiction; [|exact Hloop].
  destruct Hloop as ((Hwf & Hg & _) & _ & _ & Hwin & Hdec).
  cbn [winner board]. split; [exact Hdec|]. split; [exact Hwin|].
  split; [exact Hwf|]. split; [exact Hg|].
  intros ->. rewrite E. reflexivity.
Qed.

Lemma play_game_terminates_witness :
  match play_episode 42 false no_draw dummies with
  | Done v' => winner v' <> None
  | _ => False
  end.
Proof.
  pose proof (play_game_terminates 42 false no_draw dummies (le_n 42)) as H.
  destruct (play_episode 42 false no_draw dummies) as [v'| | |];
    [destruct H as [H _]; exact H | exact H | | exact H].
  destruct H as [H|H]; discriminate H.
Defined.

(** X16: the history of a finished game starts with the empty board under
    the name of player 1; each entry holds an undecided position and the
    name of the player who moves from it, and the next entry holds the
    position after that player's drop in a real column under the name of
    the other player; the last entry is the final board, under the name
    of the player who did not make the last move.  There is one entry per
    piece on the final board, and one more. *)
Theorem game_history_chain (fuel : nat) (learn : bool) (draws : nat -> draw)
    (v v' : vier) :
  (42 <= fuel)%nat ->
  play_episode fuel learn draws v = Done v' ->
  history_chain (game_of v') (game_history v')
  /\ head (game_history v') = Some (player_name (first_player v), zeros)
  /\ last (game_history v') = Some (player_name (turn_player v'), board v')
  /\ (length (game_history v') + total_empty (board v') = 43)%nat
  /\ first_player v' = first_player v /\ second_player v' = second_player v.
Proof.
  intros Hfuel. unfold play_episode.
  destruct (init_game_inv v) as (Hinv & Hw & Hcount).
  pose proof (play_loop_inv fuel learn draws 0 (init_game v) Hinv Hw) as Hloop.
  rewrite Hcount in Hloop. specialize (Hloop Hfuel).
  destruct (play_loop fuel learn draws 0 (init_game v)) as [v3| | |];
    try discriminate.
  intros [= <-].
  destruct Hloop as ((_ & _ & _ & Hchain & Hhead & Hlen & _) & Hp1 & Hp2 & _).
  cbn [game_history board first_player second_player turn_player].
  fold (full_history v3).
  split; [exact Hchain|]. split; [rewrite Hhead, Hp1; reflexivity|].
  split; [apply last_snoc|]. split; [exact Hlen|]. split; assumption.
Qed.

Lemma game_history_chain_witness :
  match play_episode 42 false no_draw dummies with
  | Done v' =>
      last (game_history v') = Some (player_name (turn_player v'), board v')
      /\ (length (game_history v') + total_empty (board v') = 43)%nat
  | _ => True
  end.
Proof.
  destruct (play_episode 42 false no_draw dummies) as [v'| | |] eqn:E;
    try exact I.
  destruct (game_history_chain 42 false no_draw dummies v' (le_n 42) E)
    as (_ & _ & Hlast & Hlen & _).
  split; assumption.
Defined.

(** The game of the two players who always take the first move offered:
    player A completes the bottom row with the nineteenth piece. *)
Example first_move_game :
  match play_game 42 no_draw dummies with
  | Done (v', w) =>
      w = Some (Winner "A"%string)
      /\ length (game_history v') = 20%nat
      /\ player_name (turn_player v') = "B"%string
  | _ => False
  end.
Proof. vm_compute. auto. Qed.

(** X17: the winner [play_game] returns owns a line of four on the final
    board, +1 four times for player 1 and -1 four times for player 2, and
    a draw is returned only for a board without an EMPTY cell. *)
Theorem play_game_winner_has_line (fuel : nat) (draws : nat -> draw)
    (v v' : vier) (w : option outcome) :
  (42 <= fuel)%nat ->
  play_game fuel draws v = Done (v', w) ->
  (w = Some (Winner (player_name (first_player v))) /\ has_line (board v') 1)
  \/ (w = Some (Winner (player_name (second_player v)))
      /\ has_line (board v') (-1))
  \/ (w = Some Draw /\ all_occupied (board v') = true).
Proof.
  intros Hfuel. unfold play_game, play_episode.
  destruct (init_game_inv v) as (Hinv & Hw & Hcount).
  pose proof (play_loop_inv fuel false draws 0 (init_game v) Hinv Hw) as Hloop.
  rewrite Hcount in Hloop. specialize (Hloop Hfuel).
  destruct (play_loop fuel false draws 0 (init_game v)) as [v3| | |];
    try discriminate.
  intros [= <- <-]. cbn [winner board].
  destruct Hloop as ((Hwf & _ & _ & _ & _ & _ & Hcells) & Hp1 & Hp2 & Hwin & Hdec).
  rewrite Hwin in *. unfold check_winner in *.
  change (resolve (game_of v3) None) with (board v3) in *.
  destruct (check_patterns (game_of v3) (board v3) winner_positions) as [o|] eqn:E.
  - apply check_patterns_some in E as [(-> & Hk)|[(-> & Hk)|[-> Hd]]].
    + left. split; [simpl; rewrite Hp1; reflexivity|].
      apply (hit_line (board v3) 1 Hwf Hcells); auto.
    + right; left. split; [simpl; rewrite Hp2; reflexivity|].
      apply (hit_line (board v3) (-1) Hwf Hcells); auto.
    + right; right. auto.
  - exfalso. apply Hdec. reflexivity.
Qed.

Lemma play_game_winner_has_line_witness :
  match play_game 42 no_draw dummies with
  | Done (v', w) =>
      (w = Some (Winner "A"%string) /\ has_line (board v') 1)
      \/ (w = Some (Winner "B"%string) /\ has_line (board v') (-1))
      \/ (w = Some Draw /\ all_occupied (board v') = true)
  | _ => True
  end.
Proof.
  destruct (play_game 42 no_draw dummies) as [[v' w]| | |] eqn:E; try exact I.
  exact (play_game_winner_has_line 42 no_draw dummies v' w (le_n 42) E).
Defined.

(** ** Rewards *)

(** X18: whatever [check_winner] reports for a decided game, the rewards
    of the two players of that game are +1 and -1 in one order or the
    other, or 1/2 for both when the game is drawn. *)
Theorem rewards_of_both_players (g : game) (a1 a2 : agent)
    (st : option state) (o : outcome) :
  name a1 = player1 g -> name a2 = player2 g -> player1 g <> player2 g ->
  check_winner g st = Some o ->
  (o = Winner (player1 g)
   /\ calc_reward a1 (Some o) = 1%Q /\ calc_reward a2 (Some o) = (-1)%Q)
  \/ (o = Winner (player2 g)
      /\ calc_reward a1 (Some o) = (-1)%Q /\ calc_reward a2 (Some o) = 1%Q)
  \/ (o = Draw
      /\ calc_reward a1 (Some o) = 1 # 2 /\ calc_reward a2 (Some o) = 1 # 2).
Proof.
  intros H1 H2 Hne Hw.
  destruct (check_winner_range g st) as [E|[E|[E|E]]]; rewrite E in Hw;
    try discriminate; injection Hw as <-.
  - right; right. auto.
  - left. split; [reflexivity|]. unfold calc_reward. rewrite H1, H2.
    rewrite String.eqb_refl.
    destruct (String.eqb_spec (player1 g) (player2 g)); [contradiction | auto].
  - right; left. split; [reflexivity|]. unfold calc_reward. rewrite H1, H2.
    rewrite String.eqb_refl.
    destruct (String.eqb_spec (player2 g) (player1 g)); [congruence | auto].
Qed.

Lemma rewards_of_both_players_witness :
  (Winner "A"%string = Winner (player1 g0)
   /\ calc_reward a0 (Some (Winner "A"%string)) = 1%Q
   /\ calc_reward (Agent "B" 0 1 (fun _ => 0%Q)) (Some (Winner "A"%string))
      = (-1)%Q)
  \/ (Winner "A"%string = Winner (player2 g0)
      /\ calc_reward a0 (Some (Winner "A"%string)) = (-1)%Q
      /\ calc_reward (Agent "B" 0 1 (fun _ => 0%Q)) (Some (Winner "A"%string))
         = 1%Q)
  \/ (Winner "A"%string = Draw
      /\ calc_reward a0 (Some (Winner "A"%string)) = 1 # 2
      /\ calc_reward (Agent "B" 0 1 (fun _ => 0%Q)) (Some (Winner "A"%string))
         = 1 # 2).
Proof.
  apply (rewards_of_both_players g0 a0 (Agent "B" 0 1 (fun _ => 0%Q))
           (Some vertical_win)).
  - reflexivity.
  - reflexivity.
  - discriminate.
  - reflexivity.
Defined.
